(** * MarkdownTokens.svelte: the source-extraction pass and the token renderer

    A shallow embedding of
    [src/lib/components/chat/Messages/Markdown/MarkdownTokens.svelte]:
    the script block's helpers ([headerComponent],
    [exportTableToCSVHandler], [extractAllSourcesFromTokens],
    [filterOutAllSourcesSections], the reactive [filteredTokens]) and the
    [{#each}] dispatch of the template.

    Conventions of the embedding.
    - A JavaScript string is a Rocq [string]; one character stands for one
      UTF-16 code unit in the range U+0000..U+00FF.  The only place where
      bytes appear is the Blob written by the CSV export, which is the
      UTF-8 encoding of its string part.
    - A JavaScript object read by the component is one record, [Token],
      holding the fields the component reads.  A field that marked leaves
      out is [None] where the component distinguishes absence
      ([tokens], [lang], [checked], ...), and the empty string for [text],
      which the component only ever joins, tests for truthiness or hands on.
    - Numbers are integers, printed in decimal as JavaScript prints
      integers of ordinary size. *)

From Stdlib Require Import Ascii String ZArith Lia.
From stdpp Require Import base list strings pretty.

Local Open Scope Z_scope.
Local Open Scope list_scope.

(** ** JavaScript string methods *)

Module Js.

Definition code (c : ascii) : N := Ascii.N_of_ascii c.

(** The characters [String.prototype.trim] strips, among the code units
    below U+0100: TAB, LF, VT, FF, CR, SPACE and NO-BREAK SPACE. *)
Definition isWhiteSpace (c : ascii) : bool :=
  let n := code c in
  ((9 <=? n) && (n <=? 13) || (n =? 32) || (n =? 160))%N.

Fixpoint trimStart (s : string) : string :=
  match s with
  | EmptyString => EmptyString
  | String c r => if isWhiteSpace c then trimStart r else s
  end.

Definition trimEnd (s : string) : string :=
  String.rev (trimStart (String.rev s)).

Definition trim (s : string) : string := trimEnd (trimStart s).

(** [toLowerCase] on one code unit: A-Z, and the Latin-1 capitals
    U+00C0..U+00DE except the multiplication sign U+00D7. *)
Definition lowerChar (c : ascii) : ascii :=
  let n := code c in
  if ((65 <=? n) && (n <=? 90)
      || (192 <=? n) && (n <=? 222) && negb (n =? 215))%N
  then Ascii.ascii_of_N (n + 32) else c.

Fixpoint toLowerCase (s : string) : string :=
  match s with
  | EmptyString => EmptyString
  | String c r => String (lowerChar c) (toLowerCase r)
  end.

Definition startsWith (s pre : string) : bool := String.prefix pre s.

Fixpoint includes (s sub : string) : bool :=
  String.prefix sub s
  || match s with
     | EmptyString => false
     | String _ r => includes r sub
     end.

(** [s.replace(/c/g, by)] for a one-character pattern. *)
Fixpoint replaceAll (c : ascii) (by_ : string) (s : string) : string :=
  match s with
  | EmptyString => EmptyString
  | String d r =>
      if decide (d = c) then by_ +:+ replaceAll c by_ r
      else String d (replaceAll c by_ r)
  end.

Definition join (sep : string) (l : list string) : string :=
  String.concat sep l.

(** Whether the character occurs in the string. *)
Fixpoint occurs (c : ascii) (s : string) : bool :=
  match s with
  | EmptyString => false
  | String d r => Ascii.eqb d c || occurs c r
  end.

(** [s.slice(0, n)] *)
Definition slice0 (n : nat) (s : string) : string := String.substring 0 n s.

(** [truthy] for a string: the empty string is falsy. *)
Definition truthy (s : string) : bool :=
  match s with EmptyString => false | _ => true end.

(** Template-literal printing of an integer. *)
Definition showZ (n : Z) : string := pretty n.
Definition showNat (n : nat) : string := pretty n.

Definition dquote : ascii := Ascii.ascii_of_nat 34.
Definition lf : ascii := Ascii.ascii_of_nat 10.

End Js.

(** ** Tokens

    The objects of marked's token tree, as far as the component reads them.
    Block tokens, inline tokens, list items and table cells are all plain
    objects in the source, so they share one record. *)

#[warnings="-register-all"]
Inductive Token : Type := MkToken {
  type : string;                    (* token.type *)
  raw : string;                     (* token.raw *)
  text : string;                    (* token.text *)
  tokens : option (list Token);     (* token.tokens, [None] when absent *)
  href : string;                    (* link: token.href *)
  depth : Z;                        (* heading: token.depth *)
  lang : option string;             (* code: token.lang *)
  ordered : bool;                   (* list: token.ordered *)
  start : option Z;                 (* list: token.start, a number or '' *)
  loose : bool;                     (* list: token.loose *)
  items : list Token;               (* list: token.items *)
  task : bool;                      (* list item: item.task *)
  checked : option bool;            (* list item: item.checked *)
  header : list Token;              (* table: token.header, the cells *)
  rows : list (list Token);         (* table: token.rows *)
  align : list (option string);     (* table: token.align, null is [None] *)
  summary : string;                 (* details: token.summary *)
  attributes : option (list (string * string)); (* details: token.attributes *)
  fileId : string;                  (* iframe: token.fileId *)
  displayMode : option bool         (* katex: token.displayMode *)
}.

(** An object of the given [type] with every other field absent. *)
Definition blank (ty : string) : Token :=
  {| type := ty; raw := EmptyString; text := EmptyString; tokens := None;
     href := EmptyString; depth := 0; lang := None; ordered := false;
     start := None; loose := false; items := []; task := false;
     checked := None; header := []; rows := []; align := [];
     summary := EmptyString; attributes := None; fileId := EmptyString;
     displayMode := None |}.

Definition withText (s : string) (t : Token) : Token :=
  {| type := type t; raw := raw t; text := s; tokens := tokens t;
     href := href t; depth := depth t; lang := lang t; ordered := ordered t;
     start := start t; loose := loose t; items := items t; task := task t;
     checked := checked t; header := header t; rows := rows t;
     align := align t; summary := summary t; attributes := attributes t;
     fileId := fileId t; displayMode := displayMode t |}.

Definition withTokens (ts : option (list Token)) (t : Token) : Token :=
  {| type := type t; raw := raw t; text := text t; tokens := ts;
     href := href t; depth := depth t; lang := lang t; ordered := ordered t;
     start := start t; loose := loose t; items := items t; task := task t;
     checked := checked t; header := header t; rows := rows t;
     align := align t; summary := summary t; attributes := attributes t;
     fileId := fileId t; displayMode := displayMode t |}.

Definition withItems (its : list Token) (t : Token) : Token :=
  {| type := type t; raw := raw t; text := text t; tokens := tokens t;
     href := href t; depth := depth t; lang := lang t; ordered := ordered t;
     start := start t; loose := loose t; items := its; task := task t;
     checked := checked t; header := header t; rows := rows t;
     align := align t; summary := summary t; attributes := attributes t;
     fileId := fileId t; displayMode := displayMode t |}.

(** Tokens as marked builds them, for the examples below. *)
Definition textTok (s : string) : Token := withText s (blank "text").
Definition strongTok (kids : list Token) : Token :=
  withTokens (Some kids) (blank "strong").
Definition paragraphTok (kids : list Token) : Token :=
  withTokens (Some kids) (blank "paragraph").
Definition blockquoteTok (kids : list Token) : Token :=
  withTokens (Some kids) (blank "blockquote").
Definition linkTok (label target : string) : Token :=
  {| type := "link"; raw := EmptyString; text := label; tokens := None;
     href := target; depth := 0; lang := None; ordered := false;
     start := None; loose := false; items := []; task := false;
     checked := None; header := []; rows := []; align := [];
     summary := EmptyString; attributes := None; fileId := EmptyString;
     displayMode := None |}.
Definition itemTok (s : string) (kids : list Token) : Token :=
  withTokens (Some kids) (withText s (blank "list_item")).
Definition listTok (its : list Token) : Token := withItems its (blank "list").

(** The extracted source record, [{ title: string; url: string }]. *)
Record Source : Type := MkSource { title : string; url : string }.

(** ** The source-extraction pass *)

(** [linkRegex = /^\[([^\]]+)\]\(([^\)]+)\)$/].

    [spanNot c s] splits [s] before its first [c].  A greedy [[^c]+] that
    must be followed by a literal [c] can only end there: any shorter run
    is followed by a character other than [c].  So the matcher below takes
    the one path on which the regular expression can succeed, and returns
    the two capture groups. *)
Fixpoint spanNot (c : ascii) (s : string) : string * string :=
  match s with
  | EmptyString => (EmptyString, EmptyString)
  | String d r =>
      if Ascii.eqb d c then (EmptyString, s)
      else let '(g, rest) := spanNot c r in (String d g, rest)
  end.

Definition expect (c : ascii) (s : string) : option string :=
  match s with
  | String d r => if Ascii.eqb d c then Some r else None
  | EmptyString => None
  end.

Definition linkRegex (s : string) : option (string * string) :=
  r0 ← expect "[" s;
  let '(g1, r1) := spanNot "]" r0 in
  if Js.truthy g1 then
    r2 ← expect "]" r1;
    r3 ← expect "(" r2;
    let '(g2, r4) := spanNot ")" r3 in
    if Js.truthy g2 then
      r5 ← expect ")" r4;
      match r5 with
      | EmptyString => Some (g1, g2)
      | _ => None
      end
    else None
  else None.

(** The condition both scans test on the token under the cursor
    (lines 89-98 and 135-144 of the source, the same expression twice). *)
Definition isSourcesParagraph (t : Token) : bool :=
  String.eqb (type t) "paragraph" &&
  match tokens t with
  | None => false
  | Some ts =>
      Nat.eqb (length ts) 1 &&
      match ts !! 0%nat with
      | None => false
      | Some s =>
          String.eqb (type s) "strong" &&
          match tokens s with
          | None => false
          | Some us =>
              Nat.eqb (length us) 1 &&
              match us !! 0%nat with
              | None => false
              | Some x =>
                  String.eqb (type x) "text" &&
                  Js.startsWith (Js.toLowerCase (Js.trim (text x))) "sources:"
              end
          end
      end
  end.

Definition isList (t : Token) : bool := String.eqb (type t) "list".

(** The body of [for (const item of listToken.items)]: the records one
    item pushes.  [linkTokenOf] is
    [(item.tokens || []).find((t) => t.type === 'link')]. *)
Definition linkTokenOf (item : Token) : option Token :=
  find (fun t => String.eqb (type t) "link") (default [] (tokens item)).

Definition itemSources (item : Token) : list Source :=
  match linkTokenOf item with
  | Some linkToken => [ {| title := text linkToken; url := href linkToken |} ]
  | None =>
      if Js.truthy (text item) then
        match linkRegex (text item) with
        | Some (m1, m2) => [ {| title := m1; url := m2 |} ]
        | None => []
        end
      else []
  end.

Definition pushItems (sources : list Source) (its : list Token) : list Source :=
  foldl (fun acc item => acc ++ itemSources item) sources its.

(** The [while (i < tokens.length)] loop of [extractAllSourcesFromTokens],
    with the cursor [i] and the accumulator [sources] as its state.  Every
    turn advances the cursor, so [length tokens] turns are enough. *)
Fixpoint extractLoop (fuel : nat) (toks : list Token) (i : nat)
    (sources : list Source) : list Source :=
  match fuel with
  | O => sources
  | S fuel' =>
      match toks !! i with
      | None => sources
      | Some t =>
          if isSourcesParagraph t then
            match toks !! (i + 1)%nat with
            | Some listToken =>
                if isList listToken then
                  extractLoop fuel' toks (i + 2)
                    (pushItems sources (items listToken))
                else extractLoop fuel' toks (i + 1) sources
            | None => extractLoop fuel' toks (i + 1) sources
            end
          else extractLoop fuel' toks (i + 1) sources
      end
  end.

Definition extractAllSourcesFromTokens (toks : list Token) : list Source :=
  extractLoop (length toks) toks 0 [].

(** The loop of [filterOutAllSourcesSections], state: cursor and
    [filtered]. *)
Fixpoint filterLoop (fuel : nat) (toks : list Token) (i : nat)
    (filtered : list Token) : list Token :=
  match fuel with
  | O => filtered
  | S fuel' =>
      match toks !! i with
      | None => filtered
      | Some t =>
          if isSourcesParagraph t then
            match toks !! (i + 1)%nat with
            | Some nxt =>
                if isList nxt then filterLoop fuel' toks (i + 2) filtered
                else filterLoop fuel' toks (i + 1) filtered
            | None => filterLoop fuel' toks (i + 1) filtered
            end
          else filterLoop fuel' toks (i + 1) (filtered ++ [t])
      end
  end.

Definition filterOutAllSourcesSections (toks : list Token) : list Token :=
  filterLoop (length toks) toks 0 [].

(** [$: extractedSources] and [$: filteredTokens]. *)
Definition extractedSources (toks : list Token) : list Source :=
  extractAllSourcesFromTokens toks.

Definition filteredTokens (toks : list Token) : list Token :=
  if (0 <? length (extractedSources toks))%nat
  then filterOutAllSourcesSections toks
  else toks.

(** The same two scans by recursion on the part of the sequence that lies
    at and after the cursor.  [Scan.run] is the common shape: [onPair] for
    a matching paragraph followed by a list, nothing for a matching
    paragraph followed by anything else, [onOther] for every other token.
    The loops above are proved equal to its two instances. *)
Module Scan.
Section Run.
Context {A : Type}.
Variable onPair : Token -> Token -> list A.
Variable onOther : Token -> list A.

Fixpoint run (ts : list Token) : list A :=
  match ts with
  | [] => []
  | t :: rest =>
      if isSourcesParagraph t then
        match rest with
        | nxt :: rest' =>
            if isList nxt then onPair t nxt ++ run rest' else run rest
        | [] => []
        end
      else onOther t ++ run rest
  end.
End Run.

Definition extract : list Token -> list Source :=
  run (fun _ listToken => flat_map itemSources (items listToken))
      (fun _ => []).

Definition filter : list Token -> list Token :=
  run (fun _ _ => []) (fun t => [t]).

(** The cut between [pre] and [rest] separates a matching paragraph from
    the list that follows it. *)
Definition splitsPair (pre rest : list Token) : bool :=
  match last pre, head rest with
  | Some p, Some l => isSourcesParagraph p && isList l
  | _, _ => false
  end.
End Scan.

(** ** CSV export *)

Definition csvQuote (s : string) : string :=
  String Js.dquote
    (Js.replaceAll Js.dquote (String Js.dquote (String Js.dquote EmptyString)) s
     +:+ String Js.dquote EmptyString).

(** [cell.tokens.map((token) => token.text).join('')]; [None] is the
    TypeError of calling [map] on an absent [tokens]. *)
Definition cellContent (cell : Token) : option string :=
  ts ← tokens cell; Some (Js.join EmptyString (map text ts)).

(** The UTF-8 encoding the Blob applies to its string part, on code units
    below U+0100, and the encoding of the byte-order mark U+FEFF. *)
Definition utf8Char (c : ascii) : string :=
  let n := Js.code c in
  if (n <? 128)%N then String c EmptyString
  else String (Ascii.ascii_of_N (192 + n / 64))
         (String (Ascii.ascii_of_N (128 + n mod 64)) EmptyString).

Fixpoint utf8 (s : string) : string :=
  match s with
  | EmptyString => EmptyString
  | String c r => utf8Char c +:+ utf8 r
  end.

Definition bomUtf8 : string :=
  String (Ascii.ascii_of_nat 239)
    (String (Ascii.ascii_of_nat 187)
       (String (Ascii.ascii_of_nat 191) EmptyString)).

Inductive LogEntry : Type :=
| LogMessage (msg : string)
| LogCsvData (csvData : list (list string))
| LogUnknownToken (token : Token).

(** What [saveAs(blob, name)] receives. *)
Record SavedFile : Type := MkSavedFile {
  fileName : string;
  mimeType : string;
  content : string                (* the bytes of the Blob *)
}.

Record ExportEffect : Type := MkExportEffect {
  logged : list LogEntry;
  saved : SavedFile
}.

(** [exportTableToCSVHandler(token, tokenIdx)] on a table as marked builds
    it: every header cell has a [text], every row is an array of cells.
    [None] is the TypeError raised on a body cell without [tokens]; the
    other ways a malformed table makes the handler throw lie outside the
    record type and are not modelled. *)
Definition exportTableToCSVHandler (id : string) (token : Token)
    (tokenIdx : nat) : option ExportEffect :=
  let header := map (fun headerCell => csvQuote (text headerCell)) (header token) in
  rows ← mapM (fun row => mapM (fun cell => csvQuote <$> cellContent cell) row)
           (rows token);
  let csvData := header :: rows in
  let csvContent :=
    Js.join (String Js.lf EmptyString) (map (Js.join ",") csvData) in
  Some {| logged := [LogMessage "Exporting table to CSV";
                     LogCsvData csvData; LogMessage csvContent];
          saved := {| fileName := "table-" +:+ id +:+ "-" +:+ Js.showNat tokenIdx
                                  +:+ ".csv";
                      mimeType := "text/csv;charset=UTF-8";
                      content := bomUtf8 +:+ utf8 csvContent |} |}.

(** ** The template *)

Definition headerComponent (depth : Z) : string := "h" +:+ Js.showZ depth.

(** The heading elements of HTML. *)
Definition headingElements : list string := ["h1"; "h2"; "h3"; "h4"; "h5"; "h6"].

Definition clampDepth (depth : Z) : Z := Z.max 1 (Z.min 6 depth).

(** [token.align[idx] ? '' : `text-align: ${token.align[idx]}`], the
    [style] of the [th] at [idx] and of every [td] at [idx]. *)
Definition alignStyle (al : list (option string)) (idx : nat) : string :=
  match al !! idx with
  | Some (Some a) => if Js.truthy a then EmptyString else "text-align: " +:+ a
  | Some None => "text-align: null"
  | None => "text-align: undefined"
  end.

(** The citation card's title,
    [title.length > 48 ? `${title.slice(0, 45)}...` : title]. *)
Definition citationTitle (source : Source) : string :=
  if (48 <? String.length (title source))%nat
  then Js.slice0 45 (title source) +:+ "..."
  else title source.

Record Settings : Type := MkSettings {
  collapseCodeBlocks : option bool;
  expandDetails : option bool
}.

(** The props of one instance of the component. *)
Record Props : Type := MkProps {
  id : string;
  top : bool;
  attrs : list (string * string);
  save : bool;
  preview : bool
}.

(** [<MarkdownInlineTokens id tokens />] *)
Record InlineTokens : Type := MkInline {
  inlineId : string;
  inlineTokens : option (list Token)
}.

(** [<svelte:self id tokens top attributes />]: a nested instance, with the
    defaults [top = true] and [attributes = {}] filled in. *)
Record Self : Type := MkSelf {
  selfId : string;
  selfTokens : option (list Token);
  selfTop : bool;
  selfAttributes : list (string * string)
}.

Record Cell : Type := MkCell { cellStyle : string; cellBody : InlineTokens }.

(** The checkbox of a task item; [onTaskClick] receives these fields and
    the new checked state. *)
Record TaskInput : Type := MkTaskInput {
  checkedAttr : option bool;
  clickId : string;
  clickToken : Token;
  clickTokenIdx : nat;
  clickItem : Token;
  clickItemIdx : nat
}.

Record Li : Type := MkLi { liTask : option TaskInput; liBody : Self }.

Record CodeBlockProps : Type := MkCodeBlock {
  codeId : string;
  collapsed : bool;
  codeToken : Token;
  codeLang : string;
  code : string;
  codeAttributes : list (string * string);
  codeSave : bool;
  codePreview : bool
}.

Section Template.
(** What the component takes from outside: the value of the [settings]
    store, [alertComponent] of AlertRenderer.svelte, [marked.lexer],
    [unescapeHtml] and [WEBUI_BASE_URL]. *)
Variable Alert : Type.
Variable settings : option Settings.
Variable alertComponent : Token -> option Alert.
Variable lexer : string -> list Token.
Variable unescapeHtml : string -> string.
Variable WEBUI_BASE_URL : string.

Inductive Node : Type :=
| Hr
| Heading (tag : string) (body : InlineTokens)
| CodeBlock (props : CodeBlockProps)
| Mustache (value : option string)   (* {expr}; [None] is undefined *)
| Table (thead : list Cell) (tbody : list (list Cell))
    (exportToken : Token) (exportIdx : nat)
| AlertRenderer (token : Token) (alert : Alert)
| Blockquote (body : Self)
| Ol (startAttr : Z) (lis : list Li)
| Ul (lis : list Li)
| Collapsible (summaryTitle : string) (open : bool)
    (collAttributes : option (list (string * string))) (body : Self)
| HtmlToken (htmlId : string) (token : Token)
| Iframe (src frameTitle : string)
| P (dirAuto : bool) (child : Node)
| Inline (body : InlineTokens)
| KatexRenderer (katexContent : string) (katexDisplayMode : bool)
| Spacer.

(** An element or component, as opposed to an interpolated value. *)
Definition isElement (n : Node) : bool :=
  match n with Mustache _ => false | _ => true end.

Definition key2 (id : string) (tokenIdx : nat) : string :=
  id +:+ "-" +:+ Js.showNat tokenIdx.

Definition listItems (p : Props) (token : Token) (tokenIdx : nat) : list Li :=
  imap (fun itemIdx item =>
          {| liTask :=
               if task item then
                 Some {| checkedAttr := checked item; clickId := id p;
                         clickToken := token; clickTokenIdx := tokenIdx;
                         clickItem := item; clickItemIdx := itemIdx |}
               else None;
             liBody := {| selfId := key2 (id p) tokenIdx +:+ "-"
                                    +:+ Js.showNat itemIdx;
                          selfTokens := tokens item;
                          selfTop := loose token;
                          selfAttributes := [] |} |})
       (items token).

(** One turn of [{#each filteredTokens as token, tokenIdx (tokenIdx)}]:
    the nodes the branch for [token.type] emits, and what it logs. *)
Definition renderToken (p : Props) (tokenIdx : nat) (token : Token)
    : list Node * list LogEntry :=
  let ty := type token in
  if String.eqb ty "hr" then ([Hr], [])
  else if String.eqb ty "heading" then
    ([Heading (headerComponent (depth token))
        {| inlineId := key2 (id p) tokenIdx +:+ "-h";
           inlineTokens := tokens token |}], [])
  else if String.eqb ty "code" then
    if Js.includes (raw token) "```" then
      ([CodeBlock
          {| codeId := key2 (id p) tokenIdx;
             collapsed := default false (settings ≫= collapseCodeBlocks);
             codeToken := token;
             codeLang := default EmptyString (lang token);
             code := text token;
             codeAttributes := attrs p;
             codeSave := save p;
             codePreview := preview p |}], [])
    else ([Mustache (Some (text token))], [])
  else if String.eqb ty "table" then
    ([Table
        (imap (fun headerIdx header =>
                 {| cellStyle := alignStyle (align token) headerIdx;
                    cellBody := {| inlineId := key2 (id p) tokenIdx
                                     +:+ "-header-" +:+ Js.showNat headerIdx;
                                   inlineTokens := tokens header |} |})
              (header token))
        (imap (fun rowIdx row =>
                 imap (fun cellIdx cell =>
                         {| cellStyle := alignStyle (align token) cellIdx;
                            cellBody := {| inlineId := key2 (id p) tokenIdx
                                             +:+ "-row-" +:+ Js.showNat rowIdx
                                             +:+ "-" +:+ Js.showNat cellIdx;
                                           inlineTokens := tokens cell |} |})
                      row)
              (rows token))
        token tokenIdx], [])
  else if String.eqb ty "blockquote" then
    match alertComponent token with
    | Some alert => ([AlertRenderer token alert], [])
    | None =>
        ([Blockquote {| selfId := key2 (id p) tokenIdx;
                        selfTokens := tokens token;
                        selfTop := true;
                        selfAttributes := [] |}], [])
    end
  else if String.eqb ty "list" then
    if ordered token then
      ([Ol (match start token with
            | Some n => if (n =? 0)%Z then 1 else n
            | None => 1
            end)
           (listItems p token tokenIdx)], [])
    else ([Ul (listItems p token tokenIdx)], [])
  else if String.eqb ty "details" then
    ([Collapsible (summary token)
        (default false (settings ≫= expandDetails))
        (attributes token)
        {| selfId := key2 (id p) tokenIdx +:+ "-d";
           selfTokens := Some (lexer (text token));
           selfTop := true;
           selfAttributes := default [] (attributes token) |}], [])
  else if String.eqb ty "html" then ([HtmlToken (id p) token], [])
  else if String.eqb ty "iframe" then
    ([Iframe (WEBUI_BASE_URL +:+ "/api/v1/files/" +:+ fileId token
              +:+ "/content")
             (fileId token)], [])
  else if String.eqb ty "paragraph" then
    ([P true (Inline {| inlineId := key2 (id p) tokenIdx +:+ "-p";
                        inlineTokens := Some (default [] (tokens token)) |})],
     [])
  else if String.eqb ty "text" then
    if top p then
      match tokens token with
      | Some ts =>
          ([P false (Inline {| inlineId := key2 (id p) tokenIdx +:+ "-t";
                               inlineTokens := Some ts |})], [])
      | None => ([P false (Mustache (Some (unescapeHtml (text token))))], [])
      end
    else
      match tokens token with
      | Some ts =>
          ([Inline {| inlineId := key2 (id p) tokenIdx +:+ "-p";
                      inlineTokens := Some ts |}], [])
      | None => ([Mustache (Some (unescapeHtml (text token)))], [])
      end
  else if String.eqb ty "inlineKatex" then
    if Js.truthy (text token) then
      ([KatexRenderer (text token) (default false (displayMode token))], [])
    else ([], [])
  else if String.eqb ty "blockKatex" then
    if Js.truthy (text token) then
      ([KatexRenderer (text token) (default false (displayMode token))], [])
    else ([], [])
  else if String.eqb ty "space" then ([Spacer], [])
  else ([Mustache None], [LogUnknownToken token]).

(** The [{#each}] block over a sequence whose first token has index
    [from]. *)
Fixpoint renderFrom (p : Props) (from : nat) (ts : list Token)
    : list Node * list LogEntry :=
  match ts with
  | [] => ([], [])
  | t :: rest =>
      let '(n1, l1) := renderToken p from t in
      let '(n2, l2) := renderFrom p (S from) rest in
      (n1 ++ n2, l1 ++ l2)
  end.

Definition renderEach (p : Props) (ts : list Token)
    : list Node * list LogEntry :=
  renderFrom p 0 ts.

(** The component's main block: the [{#each}] over [filteredTokens]. *)
Definition renderTokens (p : Props) (toks : list Token)
    : list Node * list LogEntry :=
  renderEach p (filteredTokens toks).

(** The kinds that have a branch of their own. *)
Definition dispatchKinds : list string :=
  ["hr"; "heading"; "code"; "table"; "blockquote"; "list"; "details";
   "html"; "iframe"; "paragraph"; "text"; "inlineKatex"; "blockKatex";
   "space"].
End Template.

Arguments Hr {Alert}.
Arguments Heading {Alert} tag body.
Arguments CodeBlock {Alert} props.
Arguments Mustache {Alert} value.
Arguments Table {Alert} thead tbody exportToken exportIdx.
Arguments AlertRenderer {Alert} token alert.
Arguments Blockquote {Alert} body.
Arguments Ol {Alert} startAttr lis.
Arguments Ul {Alert} lis.
Arguments Collapsible {Alert} summaryTitle open collAttributes body.
Arguments HtmlToken {Alert} htmlId token.
Arguments Iframe {Alert} src frameTitle.
Arguments P {Alert} dirAuto child.
Arguments Inline {Alert} body.
Arguments KatexRenderer {Alert} katexContent katexDisplayMode.
Arguments Spacer {Alert}.
Arguments isElement {Alert} n.

(** The template in surroundings with no alert shapes, no settings, an
    empty lexer and the identity for [unescapeHtml]: enough for tokens
    that are neither blockquotes nor details. *)
Definition renderTokenPlain : Props -> nat -> Token -> list (Node unit) * list LogEntry :=
  renderToken unit None (fun _ => None) (fun _ => []) (fun s => s) "http://localhost:8080".

Definition renderEachPlain : Props -> list Token -> list (Node unit) * list LogEntry :=
  renderEach unit None (fun _ => None) (fun _ => []) (fun s => s) "http://localhost:8080".

(** ** The words of the specification *)

(** The markdown text of a link, [[T](U)]. *)
Definition markdownLink (T U : string) : string :=
  "[" +:+ T +:+ "](" +:+ U +:+ ")".

(** A list item that is the markdown link [[T](U)], in one of the two
    shapes the scan reads: a link token among the item's own tokens, or the
    item text [[T](U)] where [T] and [U] are non-empty, [T] has no closing
    bracket and [U] no closing parenthesis. *)
Inductive LinkItem (item : Token) (T U : string) : Prop :=
| LinkByToken (lk : Token) :
    linkTokenOf item = Some lk -> text lk = T -> href lk = U ->
    LinkItem item T U
| LinkByText :
    linkTokenOf item = None ->
    text item = markdownLink T U ->
    T <> EmptyString -> Js.occurs "]" T = false ->
    U <> EmptyString -> Js.occurs ")" U = false ->
    LinkItem item T U.

Definition sourceOf (lk : string * string) : Source :=
  {| title := lk.1; url := lk.2 |}.

(** Tokens for the examples: the paragraph [**Sources:**], and list items
    as marked builds them (the item's own token is a text token that wraps
    the inline tokens). *)
Definition sourcesHeading : Token :=
  paragraphTok [strongTok [textTok "Sources:"]].

Definition wrappedLinkItem (T U : string) : Token :=
  itemTok (markdownLink T U)
    [withTokens (Some [linkTok T U]) (textTok (markdownLink T U))].

Definition directLinkItem (T U : string) : Token :=
  itemTok (markdownLink T U) [linkTok T U].

(** A table cell with one text token, and a table. *)
Definition cellTok (s : string) : Token :=
  withTokens (Some [textTok s]) (withText s (blank "cell")).

Definition tableTok (hd : list Token) (rws : list (list Token))
    (al : list (option string)) : Token :=
  {| type := "table"; raw := EmptyString; text := EmptyString; tokens := None;
     href := EmptyString; depth := 0; lang := None; ordered := false;
     start := None; loose := false; items := []; task := false;
     checked := None; header := hd; rows := rws; align := al;
     summary := EmptyString; attributes := None; fileId := EmptyString;
     displayMode := None |}.

Definition headingTok (d : Z) (kids : list Token) : Token :=
  {| type := "heading"; raw := EmptyString; text := EmptyString;
     tokens := Some kids;
     href := EmptyString; depth := d; lang := None; ordered := false;
     start := None; loose := false; items := []; task := false;
     checked := None; header := []; rows := []; align := [];
     summary := EmptyString; attributes := None; fileId := EmptyString;
     displayMode := None |}.

(** The strings of the CSV example: a double quote [dq], the cell text
    He said 'hi' with double quotes around hi, and the expected content:
    the quoted fields A and B joined by a comma, a line feed, then the
    quoted field x,y, a comma, and the quoted field in which each of the
    two quotes around hi is doubled. *)
Definition dq : string := String Js.dquote EmptyString.

Definition heSaidHi : string := "He said " +:+ dq +:+ "hi" +:+ dq.

Definition csvExample : string :=
  dq +:+ "A" +:+ dq +:+ "," +:+ dq +:+ "B" +:+ dq
  +:+ String Js.lf EmptyString
  +:+ dq +:+ "x,y" +:+ dq +:+ ","
  +:+ dq +:+ "He said " +:+ dq +:+ dq +:+ "hi" +:+ dq +:+ dq +:+ dq.

(** Props and surroundings for the examples. *)
Definition exampleProps : Props :=
  {| id := "m"; top := true; attrs := []; save := false; preview := false |}.

(** ** YouTube ids and the citation strip *)

(** The class [[a-zA-Z0-9_-]]. *)
Definition isIdChar (c : ascii) : bool :=
  let n := Js.code c in
  ((97 <=? n) && (n <=? 122) || (65 <=? n) && (n <=? 90)
   || (48 <=? n) && (n <=? 57) || (n =? 95) || (n =? 45))%N.

(** [[a-zA-Z0-9_-]{n}] at the head of [s]: the [n] characters captured. *)
Fixpoint takeId (n : nat) (s : string) : option string :=
  match n with
  | O => Some EmptyString
  | S n' =>
      match s with
      | EmptyString => None
      | String c r => if isIdChar c then String c <$> takeId n' r else None
      end
  end.

(** What follows the literal [pre] at the head of [s]. *)
Fixpoint afterPrefix (pre s : string) : option string :=
  match pre with
  | EmptyString => Some s
  | String c pre' =>
      match s with
      | EmptyString => None
      | String d r => if Ascii.eqb d c then afterPrefix pre' r else None
      end
  end.

(** The pattern
    [(?:youtube\.com\/watch\?v=|youtu\.be\/)([a-zA-Z0-9_-]{11})]
    tried at the head of [s]: the first alternative, then the second. *)
Definition youTubeAt (s : string) : option string :=
  match afterPrefix "youtube.com/watch?v=" s ≫= takeId 11 with
  | Some v => Some v
  | None => afterPrefix "youtu.be/" s ≫= takeId 11
  end.

(** [url.match(...)]: the pattern is not anchored, so it is tried at every
    position from the left; [match[1]] of the first success, or null. *)
Fixpoint getYouTubeId (url : string) : option string :=
  match youTubeAt url with
  | Some v => Some v
  | None =>
      match url with
      | EmptyString => None
      | String _ r => getYouTubeId r
      end
  end.

(** One [<a class=citation-card>] of the strip. *)
Record Card : Type := MkCard {
  cardHref : string;             (* href={source.url} *)
  cardTitleAttr : string;        (* title={source.title} *)
  cardThumb : option string;     (* the img src, when there is a YouTube id *)
  cardTitle : string             (* the text of .citation-title *)
}.

Definition citationCard (source : Source) : Card :=
  {| cardHref := url source;
     cardTitleAttr := title source;
     cardThumb := (fun v => "https://img.youtube.com/vi/" +:+ v
                            +:+ "/hqdefault.jpg")
                  <$> getYouTubeId (url source);
     cardTitle := citationTitle source |}.

(** [{#each extractedSources as source, idx}] inside
    [{#if extractedSources}]; an array is truthy, so the strip is always
    there and holds one card per record. *)
Definition citationStrip (toks : list Token) : list Card :=
  map citationCard (extractedSources toks).

(** ** Reading the exported CSV back

    A reader for CSV in which every field is quoted, after RFC 4180: a
    field runs from its opening quote to the first quote that is not
    doubled, a doubled quote stands for one quote, a comma after a field
    starts the next field and a line feed after a field starts the next
    record.  It is the yardstick for the export, not part of the
    component. *)
Inductive CsvState : Type := AtField | InQuotes | AfterQuote.

Fixpoint readCsv (st : CsvState) (field : string) (row : list string)
    (done_ : list (list string)) (s : string) : option (list (list string)) :=
  match s with
  | EmptyString =>
      match st with
      | AfterQuote => Some (done_ ++ [row ++ [field]])
      | _ => None
      end
  | String c r =>
      match st with
      | AtField =>
          if Ascii.eqb c Js.dquote then readCsv InQuotes EmptyString row done_ r
          else None
      | InQuotes =>
          if Ascii.eqb c Js.dquote then readCsv AfterQuote field row done_ r
          else readCsv InQuotes (field +:+ String c EmptyString) row done_ r
      | AfterQuote =>
          if Ascii.eqb c Js.dquote then
            readCsv InQuotes (field +:+ String c EmptyString) row done_ r
          else if Ascii.eqb c "," then
            readCsv AtField EmptyString (row ++ [field]) done_ r
          else if Ascii.eqb c Js.lf then
            readCsv AtField EmptyString [] (done_ ++ [row ++ [field]]) r
          else None
      end
  end.

Definition parseCsv (s : string) : option (list (list string)) :=
  readCsv AtField EmptyString [] [] s.

(** [csvContent] of the export, from the texts of the header cells and the
    contents of the body cells. *)
Definition csvContentOf (data : list (list string)) : string :=
  Js.join (String Js.lf EmptyString) (map (Js.join ",") (map (map csvQuote) data)).

(** ** Kinds *)

Definition hasBranch (t : Token) : bool :=
  existsb (String.eqb (type t)) dispatchKinds.

(** The kinds whose branch does not use [tokenIdx]. *)
Definition indexFreeKinds : list string :=
  ["hr"; "html"; "iframe"; "inlineKatex"; "blockKatex"; "space"].

Definition isWhite (s : string) : bool :=
  forallb Js.isWhiteSpace (list_ascii_of_string s).

(** * Properties *)

(** ** The loops and the recursive scans agree *)

Lemma pushItems_flat_map (its : list Token) (sources : list Source) :
  pushItems sources its = sources ++ flat_map itemSources its.
Proof.
  revert sources. induction its as [|item its IH]; intros sources; simpl.
  - by rewrite app_nil_r.
  - unfold pushItems in *. simpl. rewrite IH. by rewrite <- app_assoc.
Qed.

Lemma extractLoop_run (fuel : nat) (toks : list Token) (i : nat)
    (sources : list Source) :
  (length toks - i <= fuel)%nat ->
  extractLoop fuel toks i sources = sources ++ Scan.extract (drop i toks).
Proof.
  revert i sources. induction fuel as [|fuel IH]; intros i sources Hfuel.
  - simpl. rewrite drop_ge by lia. by rewrite app_nil_r.
  - simpl. destruct (toks !! i) as [t|] eqn:Hi.
    + pose proof (lookup_lt_Some _ _ _ Hi) as Hlt.
      rewrite (drop_S _ _ _ Hi). cbn [Scan.extract Scan.run].
      replace (i + 1)%nat with (S i) by lia.
      replace (i + 2)%nat with (S (S i)) by lia.
      destruct (isSourcesParagraph t).
      * destruct (toks !! S i) as [nxt|] eqn:Hn.
        -- pose proof (lookup_lt_Some _ _ _ Hn) as Hlt'.
           rewrite (drop_S _ _ _ Hn).
           destruct (isList nxt).
           ++ rewrite IH by lia. rewrite pushItems_flat_map.
              by rewrite <- app_assoc.
           ++ rewrite IH by lia. by rewrite (drop_S _ _ _ Hn).
        -- rewrite IH by lia.
           apply lookup_ge_None in Hn. by rewrite drop_ge by lia.
      * rewrite IH by lia. done.
    + apply lookup_ge_None in Hi. rewrite drop_ge by lia.
      by rewrite app_nil_r.
Qed.

Lemma filterLoop_run (fuel : nat) (toks : list Token) (i : nat)
    (filtered : list Token) :
  (length toks - i <= fuel)%nat ->
  filterLoop fuel toks i filtered = filtered ++ Scan.filter (drop i toks).
Proof.
  revert i filtered. induction fuel as [|fuel IH]; intros i filtered Hfuel.
  - simpl. rewrite drop_ge by lia. by rewrite app_nil_r.
  - simpl. destruct (toks !! i) as [t|] eqn:Hi.
    + pose proof (lookup_lt_Some _ _ _ Hi) as Hlt.
      rewrite (drop_S _ _ _ Hi). cbn [Scan.filter Scan.run].
      replace (i + 1)%nat with (S i) by lia.
      replace (i + 2)%nat with (S (S i)) by lia.
      destruct (isSourcesParagraph t).
      * destruct (toks !! S i) as [nxt|] eqn:Hn.
        -- pose proof (lookup_lt_Some _ _ _ Hn) as Hlt'.
           rewrite (drop_S _ _ _ Hn).
           destruct (isList nxt).
           ++ by rewrite IH by lia.
           ++ rewrite IH by lia. by rewrite (drop_S _ _ _ Hn).
        -- rewrite IH by lia.
           apply lookup_ge_None in Hn. by rewrite drop_ge by lia.
      * rewrite IH by lia. by rewrite <- app_assoc.
    + apply lookup_ge_None in Hi. rewrite drop_ge by lia.
      by rewrite app_nil_r.
Qed.

Lemma extract_run (toks : list Token) :
  extractAllSourcesFromTokens toks = Scan.extract toks.
Proof. unfold extractAllSourcesFromTokens. by rewrite extractLoop_run by lia. Qed.

Lemma filter_run (toks : list Token) :
  filterOutAllSourcesSections toks = Scan.filter toks.
Proof. unfold filterOutAllSourcesSections. by rewrite filterLoop_run by lia. Qed.

(** ** Cutting a sequence in two *)

Section RunFacts.
Context {A : Type}.
Variable onPair : Token -> Token -> list A.
Variable onOther : Token -> list A.

Lemma splitsPair_tail (x : Token) (pre rest : list Token) :
  Scan.splitsPair (x :: pre) rest = false -> Scan.splitsPair pre rest = false.
Proof.
  destruct pre as [|y pre]; [done|].
  unfold Scan.splitsPair. by rewrite last_cons_cons.
Qed.

Lemma run_app_len (n : nat) (pre rest : list Token) :
  (length pre <= n)%nat ->
  Scan.splitsPair pre rest = false ->
  Scan.run onPair onOther (pre ++ rest)
  = Scan.run onPair onOther pre ++ Scan.run onPair onOther rest.
Proof.
  revert pre. induction n as [|n IH]; intros pre Hlen Hcut.
  - destruct pre; [done | simpl in Hlen; lia].
  - destruct pre as [|t pre]; [done|].
    simpl in Hlen. cbn [app Scan.run].
    destruct (isSourcesParagraph t) eqn:Ht.
    + destruct pre as [|nxt pre].
      * destruct rest as [|r rest]; [done|].
        unfold Scan.splitsPair in Hcut. simpl in Hcut. rewrite Ht in Hcut.
        simpl in Hcut. cbn [app]. by rewrite Hcut.
      * cbn [app]. apply splitsPair_tail in Hcut as Hcut1.
        destruct (isList nxt).
        -- apply splitsPair_tail in Hcut1.
           simpl in Hlen. rewrite IH by (done || lia).
           by rewrite app_assoc.
        -- change (nxt :: pre ++ rest) with ((nxt :: pre) ++ rest).
           by rewrite IH by (done || lia).
    + apply splitsPair_tail in Hcut.
      rewrite IH by (done || lia). by rewrite app_assoc.
Qed.

Lemma run_app (pre rest : list Token) :
  Scan.splitsPair pre rest = false ->
  Scan.run onPair onOther (pre ++ rest)
  = Scan.run onPair onOther pre ++ Scan.run onPair onOther rest.
Proof. by apply (run_app_len (length pre)). Qed.

Lemma run_plain (ts : list Token) :
  Forall (fun t => isSourcesParagraph t = false) ts ->
  Scan.run onPair onOther ts = flat_map onOther ts.
Proof.
  induction 1 as [|t ts Ht _ IH]; [done|].
  simpl. by rewrite Ht, IH.
Qed.
End RunFacts.

(** ** The link pattern *)

Lemma spanNot_app (c : ascii) (g r : string) :
  Js.occurs c g = false ->
  spanNot c (g +:+ String c r) = (g, String c r).
Proof.
  induction g as [|d g IH]; simpl; intros Hg.
  - by rewrite Ascii.eqb_refl.
  - apply orb_false_iff in Hg as [Hd Hg]. rewrite Hd. by rewrite IH.
Qed.

Lemma spanNot_split (c : ascii) (s g r : string) :
  spanNot c s = (g, r) ->
  s = g +:+ r /\ Js.occurs c g = false
  /\ (r = EmptyString \/ exists r', r = String c r').
Proof.
  revert g r. induction s as [|d s IH]; simpl; intros g r Hs.
  - inversion Hs. by eauto.
  - destruct (Ascii.eqb d c) eqn:Hd.
    + inversion Hs. apply Ascii.eqb_eq in Hd as ->. by eauto.
    + destruct (spanNot c s) as [g' r'] eqn:Hs'. inversion Hs; subst.
      destruct (IH g' r eq_refl) as (-> & Hg & Hr).
      simpl. by rewrite Hd.
Qed.

Lemma truthy_nonempty (s : string) : s <> EmptyString -> Js.truthy s = true.
Proof. by destruct s. Qed.

(** The pattern accepts [[T](U)] and captures [T] and [U]. *)
Lemma linkRegex_markdownLink (T U : string) :
  T <> EmptyString -> Js.occurs "]" T = false ->
  U <> EmptyString -> Js.occurs ")" U = false ->
  linkRegex (markdownLink T U) = Some (T, U).
Proof.
  intros HT HT' HU HU'. unfold linkRegex.
  change (markdownLink T U)
    with (String "[" (T +:+ String "]" (String "(" (U +:+ String ")" EmptyString)))).
  cbn [expect]. rewrite Ascii.eqb_refl. cbn [mbind option_bind].
  rewrite (spanNot_app _ _ _ HT'), (truthy_nonempty _ HT).
  do 2 (cbn [expect]; rewrite Ascii.eqb_refl; cbn [mbind option_bind]).
  rewrite (spanNot_app _ _ _ HU'), (truthy_nonempty _ HU).
  cbn [expect]. by rewrite Ascii.eqb_refl.
Qed.

(** It accepts nothing else. *)
Lemma linkRegex_inv (s T U : string) :
  linkRegex s = Some (T, U) ->
  s = markdownLink T U
  /\ T <> EmptyString /\ Js.occurs "]" T = false
  /\ U <> EmptyString /\ Js.occurs ")" U = false.
Proof.
  unfold linkRegex, markdownLink, expect. intros H.
  destruct s as [|c0 s]; [done|].
  destruct (Ascii.eqb c0 "[") eqn:H0; [|done].
  apply Ascii.eqb_eq in H0 as ->. cbn [mbind option_bind] in H.
  destruct (spanNot "]" s) as [g1 r1] eqn:H1.
  destruct (Js.truthy g1) eqn:Hg1; [|done].
  destruct r1 as [|c1 r1]; [done|].
  destruct (Ascii.eqb c1 "]") eqn:Hc1; [|done].
  apply Ascii.eqb_eq in Hc1 as ->. cbn [mbind option_bind] in H.
  destruct r1 as [|c2 r2]; [done|].
  destruct (Ascii.eqb c2 "(") eqn:Hc2; [|done].
  apply Ascii.eqb_eq in Hc2 as ->. cbn [mbind option_bind] in H.
  destruct (spanNot ")" r2) as [g2 r4] eqn:H2.
  destruct (Js.truthy g2) eqn:Hg2; [|done].
  destruct r4 as [|c3 r5]; [done|].
  destruct (Ascii.eqb c3 ")") eqn:Hc3; [|done].
  apply Ascii.eqb_eq in Hc3 as ->. cbn [mbind option_bind] in H.
  destruct r5; [|done]. inversion H; subst.
  apply spanNot_split in H1 as (-> & HT & _).
  apply spanNot_split in H2 as (-> & HU & _).
  repeat split; try done.
  - by destruct T.
  - by destruct U.
Qed.

Lemma itemSources_link (item : Token) (T U : string) :
  LinkItem item T U -> itemSources item = [sourceOf (T, U)].
Proof.
  intros [lk Hlk <- <-|Hnone Htext HT HT' HU HU']; unfold itemSources.
  - by rewrite Hlk.
  - rewrite Hnone, Htext.
    rewrite linkRegex_markdownLink by done.
    by destruct T.
Qed.

Lemma flat_map_itemSources (its : list Token) (links : list (string * string)) :
  Forall2 (fun item lk => LinkItem item lk.1 lk.2) its links ->
  flat_map itemSources its = map sourceOf links.
Proof.
  induction 1 as [|item [T U] its links Hitem _ IH]; [done|].
  simpl. rewrite IH. by rewrite (itemSources_link _ _ _ Hitem).
Qed.

(** ** Facts about the two scans *)

(** Induction along the cursor: the four ways one turn of the loop moves. *)
Lemma scan_ind (P : list Token -> Prop) :
  P [] ->
  (forall t, isSourcesParagraph t = true -> P [t]) ->
  (forall t nxt rest, isSourcesParagraph t = true -> isList nxt = true ->
     P rest -> P (t :: nxt :: rest)) ->
  (forall t nxt rest, isSourcesParagraph t = true -> isList nxt = false ->
     P (nxt :: rest) -> P (t :: nxt :: rest)) ->
  (forall t rest, isSourcesParagraph t = false -> P rest -> P (t :: rest)) ->
  forall ts, P ts.
Proof.
  intros Hnil Hend Hpair Hlone Hother ts.
  assert (H : forall n ts, (length ts <= n)%nat -> P ts).
  { clear ts. induction n as [|n IH]; intros ts Hlen.
    - destruct ts; [done | simpl in Hlen; lia].
    - destruct ts as [|t ts]; [done|]. simpl in Hlen.
      destruct (isSourcesParagraph t) eqn:Ht.
      + destruct ts as [|nxt ts]; [by apply Hend|]. simpl in Hlen.
        destruct (isList nxt) eqn:Hn.
        * apply Hpair; [done..|]. apply IH. lia.
        * apply Hlone; [done..|]. apply IH. simpl. lia.
      + apply Hother; [done|]. apply IH. lia. }
  by apply (H (length ts)).
Qed.

Lemma sourcesParagraph_not_list (t : Token) :
  isSourcesParagraph t = true -> isList t = false.
Proof.
  unfold isSourcesParagraph, isList. intros H.
  apply andb_true_iff in H as [H _]. apply String.eqb_eq in H as ->. done.
Qed.

Lemma filter_sublist (ts : list Token) : sublist (Scan.filter ts) ts.
Proof.
  induction ts as [|t Ht|t nxt rest Ht Hn IH|t nxt rest Ht Hn IH|t rest Ht IH]
    using scan_ind; unfold Scan.filter in *; cbn [Scan.run];
    rewrite ?Ht, ?Hn; cbn [app].
  - constructor.
  - apply sublist_nil_l.
  - by do 2 apply sublist_cons.
  - by apply sublist_cons.
  - by apply sublist_skip.
Qed.

Lemma filter_keeps_no_sourcesParagraph (ts : list Token) :
  Forall (fun t => isSourcesParagraph t = false) (Scan.filter ts).
Proof.
  induction ts as [|t Ht|t nxt rest Ht Hn IH|t nxt rest Ht Hn IH|t rest Ht IH]
    using scan_ind; unfold Scan.filter in *; cbn [Scan.run];
    rewrite ?Ht, ?Hn; cbn [app]; try done.
  by constructor.
Qed.

Lemma splitsPair_before_nonlist (pre rest : list Token) (t : Token) :
  isList t = false -> Scan.splitsPair pre (t :: rest) = false.
Proof.
  intros Ht. unfold Scan.splitsPair. destruct (last pre); [|done].
  simpl. rewrite Ht. apply andb_false_r.
Qed.

Lemma splitsPair_head (pre rest rest' : list Token) (t : Token) :
  Scan.splitsPair pre (t :: rest) = Scan.splitsPair pre (t :: rest').
Proof. done. Qed.

(** ** The source-extraction pass: the claims *)

(** C1, as stated, fails.  The list item [- [a](b(c))] is a markdown link
    with title [a] and target [b(c)]; marked wraps its link token in a text
    token, so the scan falls back on the item text, which the pattern
    rejects because of the closing parenthesis inside the target.  No
    record is extracted. *)
Lemma paren_url_item_not_extracted :
  let item := wrappedLinkItem "a" "b(c)" in
  let toks := [sourcesHeading; listTok [item]] in
  isSourcesParagraph sourcesHeading = true
  /\ isList (listTok [item]) = true
  /\ text item = markdownLink "a" "b(c)"
  /\ extractAllSourcesFromTokens toks = []
  /\ extractAllSourcesFromTokens toks <> [sourceOf ("a", "b(c)")].
Proof. repeat split; try reflexivity. discriminate. Qed.

(** C1, amended.  At every place of a top-level sequence where a sources
    paragraph is immediately followed by a list whose N items are the
    markdown links [[T](U)] (each with a link token among its own tokens,
    or with item text [[T](U)], [T] and [U] non-empty, no closing bracket
    in [T], no closing parenthesis in [U]), [extractAllSourcesFromTokens]
    returns the N records [{title: T, url: U}] of that pair in item order,
    between the records of what comes before and of what comes after, and
    [filterOutAllSourcesSections] drops the paragraph and the list and
    keeps scanning after them. *)
Theorem sources_pair_extracted_and_removed
    (pre post : list Token) (p l : Token) (links : list (string * string)) :
  isSourcesParagraph p = true ->
  isList l = true ->
  Forall2 (fun item lk => LinkItem item lk.1 lk.2) (items l) links ->
  extractAllSourcesFromTokens (pre ++ p :: l :: post)
  = extractAllSourcesFromTokens pre ++ map sourceOf links
    ++ extractAllSourcesFromTokens post
  /\ length (map sourceOf links) = length (items l)
  /\ filterOutAllSourcesSections (pre ++ p :: l :: post)
     = filterOutAllSourcesSections pre ++ filterOutAllSourcesSections post.
Proof.
  intros Hp Hl Hitems.
  pose proof (sourcesParagraph_not_list _ Hp) as Hpl.
  rewrite !extract_run, !filter_run. unfold Scan.extract, Scan.filter.
  rewrite !run_app by (by apply splitsPair_before_nonlist).
  cbn [Scan.run]. rewrite Hp, Hl. cbn [app].
  rewrite (flat_map_itemSources _ _ Hitems).
  split; [done|]. split; [|done].
  rewrite length_map. symmetry. by eapply Forall2_length.
Qed.

Lemma sources_pair_witness :
  extractAllSourcesFromTokens
    ([textTok "intro"] ++ sourcesHeading
       :: listTok [wrappedLinkItem "Intro" "https://youtu.be/dQw4w9WgXcQ";
                   directLinkItem "Docs" "https://example.com"]
       :: [textTok "outro"])
  = extractAllSourcesFromTokens [textTok "intro"]
    ++ map sourceOf [("Intro", "https://youtu.be/dQw4w9WgXcQ");
                     ("Docs", "https://example.com")]
    ++ extractAllSourcesFromTokens [textTok "outro"]
  /\ length (map sourceOf [("Intro", "https://youtu.be/dQw4w9WgXcQ");
                            ("Docs", "https://example.com")])
     = length (items (listTok
                 [wrappedLinkItem "Intro" "https://youtu.be/dQw4w9WgXcQ";
                  directLinkItem "Docs" "https://example.com"]))
  /\ filterOutAllSourcesSections
       ([textTok "intro"] ++ sourcesHeading
          :: listTok [wrappedLinkItem "Intro" "https://youtu.be/dQw4w9WgXcQ";
                      directLinkItem "Docs" "https://example.com"]
          :: [textTok "outro"])
     = filterOutAllSourcesSections [textTok "intro"]
       ++ filterOutAllSourcesSections [textTok "outro"].
Proof.
  apply sources_pair_extracted_and_removed.
  - reflexivity.
  - reflexivity.
  - constructor.
    + apply LinkByText; simpl; (reflexivity || discriminate).
    + constructor; [|constructor].
      eapply LinkByToken; reflexivity.
Defined.

(** C2, as stated, fails.  In the sequence below the first sources
    paragraph is followed by a plain paragraph, not by a list; the second
    one is followed by a list that yields a record.  The filter drops the
    first paragraph as well, and so does the rendered sequence.  Alone in a
    sequence, the paragraph is dropped by the filter too. *)
Lemma lone_sources_paragraph_is_dropped :
  let plain := paragraphTok [textTok "body"] in
  let toks := [sourcesHeading; plain; sourcesHeading;
               listTok [directLinkItem "T" "u"]] in
  isSourcesParagraph sourcesHeading = true
  /\ toks !! 0%nat = Some sourcesHeading
  /\ toks !! 1%nat = Some plain /\ isList plain = false
  /\ filterOutAllSourcesSections toks = [plain]
  /\ filteredTokens toks = [plain]
  /\ (sourcesHeading ∉ filteredTokens toks)
  /\ filterOutAllSourcesSections [sourcesHeading] = [].
Proof.
  repeat split; try reflexivity.
  intros Hin. change (filteredTokens _) with [paragraphTok [textTok "body"]] in Hin.
  apply list_elem_of_singleton in Hin. discriminate.
Qed.

(** C2, amended.  For a sources paragraph that is not immediately followed
    by a list: no record is extracted from it;
    [filterOutAllSourcesSections] drops that paragraph, and nothing else
    on its account (the token after it is scanned in its turn); the
    rendered sequence [filteredTokens] is the whole input, the paragraph
    in place, exactly when no record is extracted anywhere in the
    sequence, and the filter's output otherwise. *)
Theorem lone_sources_paragraph
    (pre post : list Token) (p : Token) :
  isSourcesParagraph p = true ->
  (forall nxt, head post = Some nxt -> isList nxt = false) ->
  extractAllSourcesFromTokens (pre ++ p :: post)
  = extractAllSourcesFromTokens pre ++ extractAllSourcesFromTokens post
  /\ filterOutAllSourcesSections (pre ++ p :: post)
     = filterOutAllSourcesSections pre ++ filterOutAllSourcesSections post
  /\ filteredTokens (pre ++ p :: post)
     = match extractAllSourcesFromTokens pre
             ++ extractAllSourcesFromTokens post with
       | [] => pre ++ p :: post
       | _ :: _ =>
           filterOutAllSourcesSections pre ++ filterOutAllSourcesSections post
       end.
Proof.
  intros Hp Hpost.
  pose proof (sourcesParagraph_not_list _ Hp) as Hpl.
  assert (He : extractAllSourcesFromTokens (pre ++ p :: post)
               = extractAllSourcesFromTokens pre
                 ++ extractAllSourcesFromTokens post).
  { rewrite !extract_run. unfold Scan.extract.
    rewrite run_app by (by apply splitsPair_before_nonlist).
    cbn [Scan.run]. rewrite Hp.
    destruct post as [|nxt post]; [done|].
    by rewrite (Hpost nxt eq_refl). }
  assert (Hf : filterOutAllSourcesSections (pre ++ p :: post)
               = filterOutAllSourcesSections pre
                 ++ filterOutAllSourcesSections post).
  { rewrite !filter_run. unfold Scan.filter.
    rewrite run_app by (by apply splitsPair_before_nonlist).
    cbn [Scan.run]. rewrite Hp.
    destruct post as [|nxt post]; [done|].
    by rewrite (Hpost nxt eq_refl). }
  repeat split; [done..|].
  unfold filteredTokens, extractedSources. rewrite He, Hf.
  by destruct (extractAllSourcesFromTokens pre
               ++ extractAllSourcesFromTokens post).
Qed.

Lemma lone_sources_paragraph_witness :
  extractAllSourcesFromTokens
    ([textTok "a"] ++ sourcesHeading :: [paragraphTok [textTok "b"]])
  = extractAllSourcesFromTokens [textTok "a"]
    ++ extractAllSourcesFromTokens [paragraphTok [textTok "b"]]
  /\ filterOutAllSourcesSections
       ([textTok "a"] ++ sourcesHeading :: [paragraphTok [textTok "b"]])
     = filterOutAllSourcesSections [textTok "a"]
       ++ filterOutAllSourcesSections [paragraphTok [textTok "b"]]
  /\ filteredTokens
       ([textTok "a"] ++ sourcesHeading :: [paragraphTok [textTok "b"]])
     = match extractAllSourcesFromTokens [textTok "a"]
             ++ extractAllSourcesFromTokens [paragraphTok [textTok "b"]] with
       | [] => [textTok "a"] ++ sourcesHeading :: [paragraphTok [textTok "b"]]
       | _ :: _ =>
           filterOutAllSourcesSections [textTok "a"]
           ++ filterOutAllSourcesSections [paragraphTok [textTok "b"]]
       end.
Proof.
  apply lone_sources_paragraph.
  - reflexivity.
  - intros nxt Hn. simpl in Hn. inversion Hn. reflexivity.
Defined.

(** C3.  A sequence with no sources paragraph is returned unchanged by
    [filterOutAllSourcesSections], and [extractAllSourcesFromTokens]
    returns the empty sequence for it. *)
Theorem no_sources_paragraph_identity (toks : list Token) :
  Forall (fun t => isSourcesParagraph t = false) toks ->
  filterOutAllSourcesSections toks = toks
  /\ extractAllSourcesFromTokens toks = [].
Proof.
  intros Hplain. rewrite filter_run, extract_run.
  unfold Scan.filter, Scan.extract. rewrite !run_plain by done.
  split.
  - clear Hplain. induction toks as [|t toks IH]; [done|]. simpl. by rewrite IH.
  - clear Hplain. induction toks as [|t toks IH]; [done|]. done.
Qed.

Lemma no_sources_paragraph_witness :
  filterOutAllSourcesSections
    [paragraphTok [textTok "hello"]; listTok [directLinkItem "T" "u"];
     paragraphTok [strongTok [textTok "Notes:"]]]
  = [paragraphTok [textTok "hello"]; listTok [directLinkItem "T" "u"];
     paragraphTok [strongTok [textTok "Notes:"]]]
  /\ extractAllSourcesFromTokens
       [paragraphTok [textTok "hello"]; listTok [directLinkItem "T" "u"];
        paragraphTok [strongTok [textTok "Notes:"]]] = [].
Proof.
  apply no_sources_paragraph_identity.
  repeat constructor.
Defined.

(** C4.  Both functions look at the top-level sequence only.  Take any
    token [t] of the sequence that is not itself a sources paragraph and
    is not the list right after one, whatever its child sequences hold
    (a blockquote around a sources paragraph and its list, say).  Then no
    record comes from [t], and the filter returns [t] itself, child
    sequences included, in its place; the filter's output is always a
    subsequence of its input.  Inside the list of a top-level pair, an item
    whose own tokens are a nested sources paragraph and its list has no
    link token of its own, and yields no record unless its item text is
    itself a link. *)
Theorem nested_sequences_not_scanned
    (pre post : list Token) (t : Token) :
  isSourcesParagraph t = false ->
  Scan.splitsPair pre [t] = false ->
  extractAllSourcesFromTokens (pre ++ t :: post)
  = extractAllSourcesFromTokens pre ++ extractAllSourcesFromTokens post
  /\ filterOutAllSourcesSections (pre ++ t :: post)
     = filterOutAllSourcesSections pre ++ t :: filterOutAllSourcesSections post
  /\ sublist (filterOutAllSourcesSections (pre ++ t :: post))
       (pre ++ t :: post)
  /\ (forall item q m more,
        tokens item = Some (q :: m :: more) ->
        isSourcesParagraph q = true -> isList m = true ->
        Forall (fun k => type k <> "link") more ->
        linkTokenOf item = None
        /\ (linkRegex (text item) = None -> itemSources item = [])).
Proof.
  intros Ht Hcut.
  rewrite (splitsPair_head _ _ post) in Hcut.
  split; [|split; [|split]].
  - rewrite !extract_run. unfold Scan.extract.
    rewrite run_app by done. cbn [Scan.run]. by rewrite Ht.
  - rewrite !filter_run. unfold Scan.filter.
    rewrite run_app by done. cbn [Scan.run]. by rewrite Ht.
  - rewrite filter_run. apply filter_sublist.
  - intros item q m more Hkids Hq Hm Hmore.
    assert (Hnone : linkTokenOf item = None).
    { unfold linkTokenOf. rewrite Hkids. simpl.
      unfold isSourcesParagraph in Hq. apply andb_true_iff in Hq as [Hq _].
      apply String.eqb_eq in Hq. rewrite Hq.
      unfold isList in Hm. apply String.eqb_eq in Hm. rewrite Hm.
      simpl. clear Hkids.
      induction Hmore as [|k more Hk _ IH]; [done|].
      simpl. apply String.eqb_neq in Hk. by rewrite Hk. }
    split; [done|]. intros Hre. unfold itemSources.
    rewrite Hnone, Hre. by destruct (Js.truthy _).
Qed.

Lemma nested_sequences_witness :
  let quote :=
    blockquoteTok [sourcesHeading; listTok [directLinkItem "T" "u"]] in
  extractAllSourcesFromTokens ([textTok "a"] ++ quote :: [textTok "b"])
  = extractAllSourcesFromTokens [textTok "a"]
    ++ extractAllSourcesFromTokens [textTok "b"]
  /\ filterOutAllSourcesSections ([textTok "a"] ++ quote :: [textTok "b"])
     = filterOutAllSourcesSections [textTok "a"]
       ++ quote :: filterOutAllSourcesSections [textTok "b"]
  /\ sublist (filterOutAllSourcesSections
                ([textTok "a"] ++ quote :: [textTok "b"]))
       ([textTok "a"] ++ quote :: [textTok "b"])
  /\ (forall item q m more,
        tokens item = Some (q :: m :: more) ->
        isSourcesParagraph q = true -> isList m = true ->
        Forall (fun k => type k <> "link") more ->
        linkTokenOf item = None
        /\ (linkRegex (text item) = None -> itemSources item = [])).
Proof.
  intros quote. apply nested_sequences_not_scanned; reflexivity.
Defined.

(** C5.  When [extractAllSourcesFromTokens] returns no record, the
    rendered sequence [filteredTokens] is the input itself: the filter is
    not applied, and a sources paragraph of the input, which the filter
    never lets through, is still in the rendered sequence. *)
Theorem no_records_renders_input (toks : list Token) :
  extractAllSourcesFromTokens toks = [] ->
  filteredTokens toks = toks
  /\ (forall t, t ∈ toks -> isSourcesParagraph t = true ->
        t ∈ filteredTokens toks /\ t ∉ filterOutAllSourcesSections toks).
Proof.
  intros Hnone.
  assert (Hsame : filteredTokens toks = toks).
  { unfold filteredTokens, extractedSources. by rewrite Hnone. }
  split; [done|]. intros t Hin Ht. rewrite Hsame. split; [done|].
  rewrite filter_run. intros Hkept.
  pose proof (filter_keeps_no_sourcesParagraph toks) as Hall.
  rewrite Forall_forall in Hall. specialize (Hall t Hkept). congruence.
Qed.

Lemma no_records_witness :
  filteredTokens [sourcesHeading; paragraphTok [textTok "body"]]
  = [sourcesHeading; paragraphTok [textTok "body"]]
  /\ (forall t, t ∈ [sourcesHeading; paragraphTok [textTok "body"]] ->
        isSourcesParagraph t = true ->
        t ∈ filteredTokens [sourcesHeading; paragraphTok [textTok "body"]]
        /\ t ∉ filterOutAllSourcesSections
                [sourcesHeading; paragraphTok [textTok "body"]]).
Proof.
  apply no_records_renders_input. reflexivity.
Defined.

(** ** CSV export *)

(** C6.  For a table whose header cells have the texts A and B and whose
    single row has two cells with contents x,y and He said 'hi' (double
    quotes around hi), the export saves, under the name
    [table-{id}-{tokenIdx}.csv], a file whose content is the UTF-8
    byte-order mark followed by exactly [csvExample]: every field wrapped
    in double quotes, the quotes inside a field doubled, fields joined by
    commas and the two rows by a line feed. *)
Theorem csv_export_example (id : string) (token : Token) (tokenIdx : nat) :
  map text (header token) = ["A"; "B"] ->
  mapM (mapM cellContent) (rows token) = Some [["x,y"; heSaidHi]] ->
  saved <$> exportTableToCSVHandler id token tokenIdx
  = Some {| fileName := "table-" +:+ id +:+ "-" +:+ Js.showNat tokenIdx
                        +:+ ".csv";
            mimeType := "text/csv;charset=UTF-8";
            content := bomUtf8 +:+ csvExample |}.
Proof.
  intros Hheader Hrows. unfold exportTableToCSVHandler.
  apply mapM_Some in Hrows.
  inversion Hrows as [|row cells rws rest Hrow Hrest Erows]; subst.
  inversion Hrest; subst. clear Hrest Hrows.
  apply mapM_Some in Hrow.
  inversion Hrow as [|c1 s1 cs1 ss1 Hc1 Hcs1]; subst.
  inversion Hcs1 as [|c2 s2 cs2 ss2 Hc2 Hcs2]; subst.
  inversion Hcs2; subst. clear Hrow Hcs1 Hcs2.
  cbn [mapM]. rewrite Hc1, Hc2. cbn [fmap option_fmap option_map mbind option_bind
                                    mret option_ret].
  replace (map (fun headerCell => csvQuote (text headerCell)) (header token))
    with (map csvQuote (map text (header token)))
    by (by rewrite map_map).
  rewrite Hheader. reflexivity.
Qed.

Lemma csv_export_witness :
  saved <$> exportTableToCSVHandler "msg-1"
              (tableTok [cellTok "A"; cellTok "B"]
                 [[cellTok "x,y";
                   withTokens (Some [textTok "He said "; textTok (dq +:+ "hi" +:+ dq)])
                     (blank "cell")]]
                 [None; None])
              3
  = Some {| fileName := "table-" +:+ "msg-1" +:+ "-" +:+ Js.showNat 3
                        +:+ ".csv";
            mimeType := "text/csv;charset=UTF-8";
            content := bomUtf8 +:+ csvExample |}.
Proof.
  apply csv_export_example; reflexivity.
Defined.

(** ** The citation card's title *)

Lemma slice0_prefix (n : nat) (s : string) :
  (n <= String.length s)%nat ->
  String.length (Js.slice0 n s) = n
  /\ exists rest, s = Js.slice0 n s +:+ rest.
Proof.
  unfold Js.slice0. revert s. induction n as [|n IH]; intros s Hn.
  - destruct s; simpl; eauto.
  - destruct s as [|c s]; simpl in *; [lia|].
    destruct (IH s) as [Hlen [rest Hrest]]; [lia|].
    split; [by rewrite Hlen|]. exists rest.
    change (String c s = String c (substring 0 n s +:+ rest)).
    f_equal. exact Hrest.
Qed.

(** C10.  A title of at most 48 characters is shown unchanged; a longer
    one is shown as its first 45 characters followed by three dots. *)
Theorem citation_title_truncation (short long : Source) :
  (String.length (title short) <= 48)%nat ->
  (48 < String.length (title long))%nat ->
  citationTitle short = title short
  /\ citationTitle long = Js.slice0 45 (title long) +:+ "..."
  /\ String.length (Js.slice0 45 (title long)) = 45%nat
  /\ exists rest, title long = Js.slice0 45 (title long) +:+ rest.
Proof.
  intros Hshort Hlong. unfold citationTitle.
  assert (Hs : (48 <? String.length (title short))%nat = false)
    by (apply Nat.ltb_ge; lia).
  assert (Hl : (48 <? String.length (title long))%nat = true)
    by (apply Nat.ltb_lt; lia).
  rewrite Hs, Hl. repeat split; try done.
  - apply slice0_prefix. lia.
  - apply slice0_prefix. lia.
Qed.

Lemma citation_title_witness :
  citationTitle
    {| title := "012345678901234567890123456789012345678901234567";
       url := "u" |}
  = "012345678901234567890123456789012345678901234567"
  /\ citationTitle
       {| title := "012345678901234567890123456789012345678901234567890123456789";
          url := "u" |}
     = Js.slice0 45
         "012345678901234567890123456789012345678901234567890123456789"
       +:+ "..."
  /\ String.length
       (Js.slice0 45
          "012345678901234567890123456789012345678901234567890123456789")
     = 45%nat
  /\ exists rest,
       "012345678901234567890123456789012345678901234567890123456789"
       = Js.slice0 45
           "012345678901234567890123456789012345678901234567890123456789"
         +:+ rest.
Proof.
  apply (citation_title_truncation
           {| title := "012345678901234567890123456789012345678901234567";
              url := "u" |}
           {| title := "012345678901234567890123456789012345678901234567890123456789";
              url := "u" |}).
  - simpl. lia.
  - simpl. lia.
Defined.

(** ** The template *)

(** C7, at a failing input.  With the alignment list [center, null] the
    first column's header and body cells get the empty style, and the
    second column's get [text-align: null]: the two arms of the
    conditional are the wrong way round, so a set alignment never reaches
    the cell. *)
Lemma table_alignment_is_dropped :
  let token := tableTok [cellTok "A"; cellTok "B"]
                 [[cellTok "1"; cellTok "2"]] [Some "center"; None] in
  alignStyle (align token) 0 = EmptyString
  /\ alignStyle (align token) 1 = "text-align: null"
  /\ match (renderTokenPlain exampleProps 0 token).1 with
     | [Table thead tbody _ _] =>
         map cellStyle thead = [EmptyString; "text-align: null"]
         /\ map (map cellStyle) tbody = [[EmptyString; "text-align: null"]]
     | _ => False
     end.
Proof. repeat split; reflexivity. Qed.

(** C8, as stated, fails: a heading of depth 7 is rendered as the element
    [h7], which is no heading element, and not as [h6]. *)
Lemma heading_depth_seven_is_h7 :
  headerComponent 7 = "h7"
  /\ ("h7" ∉ headingElements)
  /\ headerComponent 7 <> headerComponent (clampDepth 7)
  /\ (renderTokenPlain exampleProps 0 (headingTok 7 [textTok "x"])).1
     = [Heading "h7" {| inlineId := "m-0-h";
                        inlineTokens := Some [textTok "x"] |}].
Proof.
  split; [reflexivity|]. split; [|split; [|reflexivity]].
  - unfold headingElements. intros Hin.
    repeat (apply elem_of_cons in Hin as [Hin|Hin]; [discriminate|]).
    by apply not_elem_of_nil in Hin.
  - discriminate.
Qed.

Section TemplateFacts.
Variable Alert : Type.
Variable settings : option Settings.
Variable alertComponent : Token -> option Alert.
Variable lexer : string -> list Token.
Variable unescapeHtml : string -> string.
Variable WEBUI_BASE_URL : string.

Local Abbreviation renderToken' :=
  (renderToken Alert settings alertComponent lexer unescapeHtml WEBUI_BASE_URL).
Local Abbreviation renderFrom' :=
  (renderFrom Alert settings alertComponent lexer unescapeHtml WEBUI_BASE_URL).
Local Abbreviation renderEach' :=
  (renderEach Alert settings alertComponent lexer unescapeHtml WEBUI_BASE_URL).

Lemma headerComponent_heading (d : Z) :
  headerComponent d ∈ headingElements <-> 1 <= d <= 6.
Proof.
  unfold headerComponent, headingElements, Js.showZ. split.
  - intros Hin. cbn [String.append] in Hin.
    rewrite !elem_of_cons in Hin.
    destruct Hin as [H|[H|[H|[H|[H|[H|H]]]]]];
      [injection H as H ..|by apply not_elem_of_nil in H].
    + assert (d = 1) as -> by (apply (inj (pretty (A:=Z))); exact H). lia.
    + assert (d = 2) as -> by (apply (inj (pretty (A:=Z))); exact H). lia.
    + assert (d = 3) as -> by (apply (inj (pretty (A:=Z))); exact H). lia.
    + assert (d = 4) as -> by (apply (inj (pretty (A:=Z))); exact H). lia.
    + assert (d = 5) as -> by (apply (inj (pretty (A:=Z))); exact H). lia.
    + assert (d = 6) as -> by (apply (inj (pretty (A:=Z))); exact H). lia.
  - intros Hd.
    assert (Hcases : d = 1 \/ d = 2 \/ d = 3 \/ d = 4 \/ d = 5 \/ d = 6) by lia.
    destruct Hcases as [->|[->|[->|[->|[->| ->]]]]];
      apply list_elem_of_In; simpl; tauto.
Qed.

(** C8, amended.  A heading token is rendered as the element named [h]
    followed by the token's depth in decimal, with no clamping; that is
    one of the heading elements [h1] to [h6] exactly when the depth lies
    between 1 and 6. *)
Theorem heading_level_is_depth (p : Props) (tokenIdx : nat) (token : Token) :
  type token = "heading" ->
  renderToken' p tokenIdx token
  = ([Heading ("h" +:+ Js.showZ (depth token))
        {| inlineId := key2 (id p) tokenIdx +:+ "-h";
           inlineTokens := tokens token |}], [])
  /\ (headerComponent (depth token) ∈ headingElements
      <-> 1 <= depth token <= 6).
Proof.
  intros Hty. split; [|apply headerComponent_heading].
  unfold renderToken. rewrite Hty. reflexivity.
Qed.

Lemma renderFrom_app (p : Props) (from : nat) (xs ys : list Token) :
  renderFrom' p from (xs ++ ys)
  = ((renderFrom' p from xs).1 ++ (renderFrom' p (from + length xs) ys).1,
     (renderFrom' p from xs).2 ++ (renderFrom' p (from + length xs) ys).2).
Proof.
  revert from. induction xs as [|x xs IH]; intros from.
  - simpl. rewrite Nat.add_0_r. by destruct (renderFrom' p from ys).
  - cbn [app renderFrom length]. rewrite IH.
    replace (S from + length xs)%nat with (from + S (length xs))%nat by lia.
    destruct (renderToken' p from x) as [n1 l1].
    destruct (renderFrom' p (S from) xs) as [n2 l2].
    cbn [fst snd]. by rewrite !app_assoc.
Qed.

Lemma renderToken_unknown (p : Props) (tokenIdx : nat) (token : Token) :
  type token ∉ dispatchKinds ->
  renderToken' p tokenIdx token = ([Mustache None], [LogUnknownToken token]).
Proof.
  intros Hkind.
  assert (Hne : forall k, k ∈ dispatchKinds -> String.eqb (type token) k = false).
  { intros k Hk. apply String.eqb_neq. intros Heq. by rewrite Heq in Hkind. }
  unfold renderToken.
  rewrite !Hne by (apply list_elem_of_In; simpl; tauto).
  reflexivity.
Qed.


End TemplateFacts.



Lemma heading_level_witness :
  renderTokenPlain exampleProps 4 (headingTok 3 [textTok "x"])
  = ([Heading ("h" +:+ Js.showZ (depth (headingTok 3 [textTok "x"])))
        {| inlineId := key2 (id exampleProps) 4 +:+ "-h";
           inlineTokens := tokens (headingTok 3 [textTok "x"]) |}], [])
  /\ (headerComponent (depth (headingTok 3 [textTok "x"])) ∈ headingElements
      <-> 1 <= depth (headingTok 3 [textTok "x"]) <= 6).
Proof.
  apply heading_level_is_depth. reflexivity.
Defined.

(** ** Evaluations *)

Example trim_ex :
  Js.trim (String Js.lf "  Sources: a ") = "Sources: a".
Proof. reflexivity. Qed.

Example toLowerCase_ex : Js.toLowerCase "SoUrCeS: X" = "sources: x".
Proof. reflexivity. Qed.

Example show_ex :
  Js.showZ 7 = "7" /\ Js.showNat 12 = "12" /\ Js.showZ (-3) = "-3".
Proof. repeat split; reflexivity. Qed.

Example linkRegex_ex :
  linkRegex "[Intro](https://youtu.be/x)" = Some ("Intro", "https://youtu.be/x")
  /\ linkRegex "[a](b(c))" = None
  /\ linkRegex "[a]b](u)" = None
  /\ linkRegex "[](u)" = None.
Proof. repeat split; reflexivity. Qed.

Example isSourcesParagraph_ex :
  isSourcesParagraph (paragraphTok [strongTok [textTok "  SOURCES: see below"]]) = true
  /\ isSourcesParagraph (paragraphTok [strongTok [textTok "Source:"]]) = false
  /\ isSourcesParagraph (paragraphTok [textTok "Sources:"]) = false
  /\ isSourcesParagraph (paragraphTok [strongTok [textTok "Sources:"]; textTok "x"]) = false.
Proof. repeat split; reflexivity. Qed.

Example extract_two_blocks :
  extractAllSourcesFromTokens
    [sourcesHeading; listTok [wrappedLinkItem "A" "u1"; itemTok "plain" []];
     textTok "mid";
     sourcesHeading; listTok [];
     sourcesHeading; listTok [directLinkItem "B" "u2"]]
  = [sourceOf ("A", "u1"); sourceOf ("B", "u2")]
  /\ filterOutAllSourcesSections
       [sourcesHeading; listTok [wrappedLinkItem "A" "u1"; itemTok "plain" []];
        textTok "mid";
        sourcesHeading; listTok [];
        sourcesHeading; listTok [directLinkItem "B" "u2"]]
     = [textTok "mid"].
Proof. split; reflexivity. Qed.

Example csvQuote_ex : csvQuote heSaidHi
  = dq +:+ "He said " +:+ dq +:+ dq +:+ "hi" +:+ dq +:+ dq +:+ dq.
Proof. reflexivity. Qed.

(** * Further properties of the component *)

(** ** The two scans *)

Lemma flat_map_singleton {A : Type} (l : list A) :
  flat_map (fun x => [x]) l = l.
Proof. induction l as [|x l IH]; [done|]. simpl. by rewrite IH. Qed.

Lemma flat_map_none {A B : Type} (l : list A) :
  flat_map (fun _ => @nil B) l = [].
Proof. by induction l. Qed.

Lemma itemSources_length (item : Token) : (length (itemSources item) <= 1)%nat.
Proof.
  unfold itemSources. destruct (linkTokenOf item); [simpl; lia|].
  destruct (Js.truthy _); [|simpl; lia].
  destruct (linkRegex _) as [[m1 m2]|]; simpl; lia.
Qed.

Lemma flat_map_itemSources_length (its : list Token) :
  (length (flat_map itemSources its) <= length its)%nat.
Proof.
  induction its as [|item its IH]; [done|].
  simpl. rewrite length_app. pose proof (itemSources_length item). lia.
Qed.

Lemma extract_after_filter (toks : list Token) :
  extractAllSourcesFromTokens (filterOutAllSourcesSections toks) = [].
Proof.
  pose proof (filter_keeps_no_sourcesParagraph toks) as Hclean.
  rewrite filter_run, extract_run. unfold Scan.extract.
  rewrite run_plain by done. apply flat_map_none.
Qed.

Lemma filter_after_filter (toks : list Token) :
  filterOutAllSourcesSections (filterOutAllSourcesSections toks)
  = filterOutAllSourcesSections toks.
Proof.
  pose proof (filter_keeps_no_sourcesParagraph toks) as Hclean.
  rewrite !filter_run. unfold Scan.filter at 1.
  rewrite run_plain by done. apply flat_map_singleton.
Qed.

(** X1.  The filter lets no sources paragraph through, so filtering twice is
    filtering once, and nothing is left to extract from its output. *)
Theorem filter_is_idempotent (toks : list Token) :
  Forall (fun t => isSourcesParagraph t = false)
    (filterOutAllSourcesSections toks)
  /\ filterOutAllSourcesSections (filterOutAllSourcesSections toks)
     = filterOutAllSourcesSections toks
  /\ extractAllSourcesFromTokens (filterOutAllSourcesSections toks) = [].
Proof.
  split; [|split].
  - rewrite filter_run. apply filter_keeps_no_sourcesParagraph.
  - apply filter_after_filter.
  - apply extract_after_filter.
Qed.

(** X2.  Whatever the input, the sequence that is rendered is a subsequence of
    it from which no record can be extracted any more. *)
Theorem rendered_sequence_has_no_records (toks : list Token) :
  sublist (filteredTokens toks) toks
  /\ extractAllSourcesFromTokens (filteredTokens toks) = [].
Proof.
  unfold filteredTokens, extractedSources.
  destruct (extractAllSourcesFromTokens toks) as [|r rs] eqn:Hr; simpl.
  - by split.
  - split.
    + rewrite filter_run. apply filter_sublist.
    + apply extract_after_filter.
Qed.

(** X3.  Every extracted record comes from an item of a top-level list that
    stands right after a top-level sources paragraph. *)
Theorem extracted_record_origin (toks : list Token) (s : Source) :
  s ∈ extractAllSourcesFromTokens toks ->
  exists (i : nat) (p l item : Token),
    toks !! i = Some p /\ toks !! S i = Some l
    /\ isSourcesParagraph p = true /\ isList l = true
    /\ item ∈ items l /\ s ∈ itemSources item.
Proof.
  rewrite extract_run. unfold Scan.extract.
  induction toks as [|t Ht|t nxt rest Ht Hn IH|t nxt rest Ht Hn IH|t rest Ht IH]
    using scan_ind; cbn [Scan.run]; rewrite ?Ht, ?Hn; cbn [app]; intros Hs.
  - by apply not_elem_of_nil in Hs.
  - by apply not_elem_of_nil in Hs.
  - apply elem_of_app in Hs as [Hs|Hs].
    + apply list_elem_of_In, in_flat_map in Hs as (item & Hitem & Hs).
      exists 0%nat, t, nxt, item.
      repeat split; try done; by apply list_elem_of_In.
    + destruct (IH Hs) as (i & p & l & item & Hp & Hl & H).
      by exists (S (S i)), p, l, item.
  - destruct (IH Hs) as (i & p & l & item & Hp & Hl & H).
    by exists (S i), p, l, item.
  - destruct (IH Hs) as (i & p & l & item & Hp & Hl & H).
    by exists (S i), p, l, item.
Qed.

Lemma extracted_record_origin_witness :
  exists (i : nat) (p l item : Token),
    [textTok "a"; sourcesHeading; listTok [directLinkItem "T" "u"]] !! i = Some p
    /\ [textTok "a"; sourcesHeading; listTok [directLinkItem "T" "u"]] !! S i
       = Some l
    /\ isSourcesParagraph p = true /\ isList l = true
    /\ item ∈ items l /\ sourceOf ("T", "u") ∈ itemSources item.
Proof.
  apply (extracted_record_origin
           [textTok "a"; sourcesHeading; listTok [directLinkItem "T" "u"]]
           (sourceOf ("T", "u"))).
  vm_compute. apply list_elem_of_here.
Defined.

(** X4.  There are never more records than items in the top-level lists. *)
Theorem records_bounded_by_items (toks : list Token) :
  (length (extractAllSourcesFromTokens toks)
   <= length (flat_map items (List.filter isList toks)))%nat.
Proof.
  rewrite extract_run. unfold Scan.extract.
  induction toks as [|t Ht|t nxt rest Ht Hn IH|t nxt rest Ht Hn IH|t rest Ht IH]
    using scan_ind; cbn [Scan.run List.filter]; rewrite ?Ht, ?Hn;
    rewrite ?(sourcesParagraph_not_list _ Ht); cbn [app flat_map].
  - done.
  - simpl. lia.
  - rewrite !length_app. pose proof (flat_map_itemSources_length (items nxt)). lia.
  - cbn [List.filter] in IH. by rewrite Hn in IH.
  - destruct (isList t); cbn [flat_map]; rewrite ?length_app; lia.
Qed.

(** X5.  A sequence can be scanned in two parts wherever the cut does not fall
    between a sources paragraph and the list after it. *)
Theorem scans_split (pre rest : list Token) :
  (forall p l, last pre = Some p -> head rest = Some l ->
     isSourcesParagraph p && isList l = false) ->
  extractAllSourcesFromTokens (pre ++ rest)
  = extractAllSourcesFromTokens pre ++ extractAllSourcesFromTokens rest
  /\ filterOutAllSourcesSections (pre ++ rest)
     = filterOutAllSourcesSections pre ++ filterOutAllSourcesSections rest.
Proof.
  intros Hcut.
  assert (Hsplit : Scan.splitsPair pre rest = false).
  { unfold Scan.splitsPair. destruct (last pre) as [p|]; [|done].
    destruct (head rest) as [l|]; [|done]. by apply Hcut. }
  rewrite !extract_run, !filter_run. unfold Scan.extract, Scan.filter.
  by rewrite !run_app.
Qed.

Lemma scans_split_witness :
  extractAllSourcesFromTokens
    ([sourcesHeading; listTok [directLinkItem "T" "u"]]
     ++ [listTok [directLinkItem "V" "w"]])
  = extractAllSourcesFromTokens
      [sourcesHeading; listTok [directLinkItem "T" "u"]]
    ++ extractAllSourcesFromTokens [listTok [directLinkItem "V" "w"]]
  /\ filterOutAllSourcesSections
       ([sourcesHeading; listTok [directLinkItem "T" "u"]]
        ++ [listTok [directLinkItem "V" "w"]])
     = filterOutAllSourcesSections
         [sourcesHeading; listTok [directLinkItem "T" "u"]]
       ++ filterOutAllSourcesSections [listTok [directLinkItem "V" "w"]].
Proof.
  apply scans_split.
  intros p l Hp Hl. simpl in Hp, Hl. inversion Hp. inversion Hl. reflexivity.
Defined.

(** X6.  A sources paragraph followed by any list, whatever its items: the
    pair contributes the records of its items, at most one per item and
    none for an item that has no link token of its own and whose text the
    pattern rejects; the filter drops the pair. *)
Theorem any_pair_contributes_item_records
    (pre post : list Token) (p l : Token) :
  isSourcesParagraph p = true ->
  isList l = true ->
  extractAllSourcesFromTokens (pre ++ p :: l :: post)
  = extractAllSourcesFromTokens pre ++ flat_map itemSources (items l)
    ++ extractAllSourcesFromTokens post
  /\ (length (flat_map itemSources (items l)) <= length (items l))%nat
  /\ (forall item, item ∈ items l -> linkTokenOf item = None ->
        linkRegex (text item) = None -> itemSources item = [])
  /\ filterOutAllSourcesSections (pre ++ p :: l :: post)
     = filterOutAllSourcesSections pre ++ filterOutAllSourcesSections post.
Proof.
  intros Hp Hl.
  pose proof (sourcesParagraph_not_list _ Hp) as Hpl.
  rewrite !extract_run, !filter_run. unfold Scan.extract, Scan.filter.
  rewrite !run_app by (by apply splitsPair_before_nonlist).
  cbn [Scan.run]. rewrite Hp, Hl. cbn [app].
  split; [done|]. split; [apply flat_map_itemSources_length|]. split; [|done].
  intros item _ Hnone Hre. unfold itemSources. rewrite Hnone, Hre.
  by destruct (Js.truthy _).
Qed.

Lemma any_pair_witness :
  extractAllSourcesFromTokens
    ([] ++ sourcesHeading
        :: listTok [itemTok "plain words" []; directLinkItem "T" "u"] :: [])
  = extractAllSourcesFromTokens []
    ++ flat_map itemSources
         (items (listTok [itemTok "plain words" []; directLinkItem "T" "u"]))
    ++ extractAllSourcesFromTokens []
  /\ (length (flat_map itemSources
                (items (listTok [itemTok "plain words" [];
                                 directLinkItem "T" "u"])))
      <= length (items (listTok [itemTok "plain words" [];
                                 directLinkItem "T" "u"])))%nat
  /\ (forall item,
        item ∈ items (listTok [itemTok "plain words" [];
                               directLinkItem "T" "u"]) ->
        linkTokenOf item = None ->
        linkRegex (text item) = None -> itemSources item = [])
  /\ filterOutAllSourcesSections
       ([] ++ sourcesHeading
           :: listTok [itemTok "plain words" []; directLinkItem "T" "u"] :: [])
     = filterOutAllSourcesSections [] ++ filterOutAllSourcesSections [].
Proof.
  apply any_pair_contributes_item_records; reflexivity.
Defined.

(** X7.  The link pattern accepts exactly the texts [[T](U)] with [T] and [U]
    non-empty, no closing bracket in [T] and no closing parenthesis in
    [U], and captures [T] and [U]. *)
Theorem linkRegex_iff (s T U : string) :
  linkRegex s = Some (T, U)
  <-> s = markdownLink T U
      /\ T <> EmptyString /\ Js.occurs "]" T = false
      /\ U <> EmptyString /\ Js.occurs ")" U = false.
Proof.
  split.
  - apply linkRegex_inv.
  - intros (-> & HT & HT' & HU & HU'). by apply linkRegex_markdownLink.
Qed.

(** ** Strings *)

Lemma append_cons (c : ascii) (s t : string) :
  String c s +:+ t = String c (s +:+ t).
Proof. reflexivity. Qed.

Lemma append_nil_r (s : string) : s +:+ EmptyString = s.
Proof. induction s as [|c s IH]; [done|]. by rewrite append_cons, IH. Qed.

Lemma append_assoc (a b c : string) : (a +:+ b) +:+ c = a +:+ (b +:+ c).
Proof. induction a as [|x a IH]; [done|]. by rewrite !append_cons, IH. Qed.

Lemma length_append (a b : string) :
  String.length (a +:+ b) = (String.length a + String.length b)%nat.
Proof.
  induction a as [|x a IH]; [done|].
  rewrite append_cons. simpl. by rewrite IH.
Qed.

Lemma append_cancel_r (a b t : string) : a +:+ t = b +:+ t -> a = b.
Proof.
  revert b. induction a as [|x a IH]; intros [|y b] H.
  - done.
  - apply (f_equal String.length) in H.
    rewrite !length_append in H. simpl in H. lia.
  - apply (f_equal String.length) in H.
    rewrite !length_append in H. simpl in H. lia.
  - rewrite !append_cons in H. injection H as -> H. f_equal. by apply IH.
Qed.

(** ** CSV export *)

Lemma mapM_fmap_inner {A B C : Type} (f : A -> option B) (g : B -> C)
    (l : list A) :
  mapM (fun x => g <$> f x) l = map g <$> mapM f l.
Proof.
  induction l as [|x l IH]; [done|].
  cbn [mapM]. rewrite IH.
  destruct (f x); [|done]. simpl. by destruct (mapM f l).
Qed.

Lemma export_rows (rws : list (list Token)) :
  mapM (fun row => mapM (fun cell => csvQuote <$> cellContent cell) row) rws
  = map (map csvQuote) <$> mapM (mapM cellContent) rws.
Proof.
  rewrite <- mapM_fmap_inner.
  induction rws as [|row rws IH]; [done|].
  cbn [mapM]. by rewrite IH, (mapM_fmap_inner cellContent csvQuote row).
Qed.

(** X9.  Two exports under the same id save under the same name only from the
    same token index. *)
Theorem csv_file_name_determines_index
    (id : string) (t1 t2 : Token) (i j : nat) (e1 e2 : ExportEffect) :
  exportTableToCSVHandler id t1 i = Some e1 ->
  exportTableToCSVHandler id t2 j = Some e2 ->
  fileName (saved e1) = fileName (saved e2) ->
  i = j.
Proof.
  unfold exportTableToCSVHandler. intros H1 H2 Hname.
  destruct (mapM _ (rows t1)); [|done]. destruct (mapM _ (rows t2)); [|done].
  simpl in H1, H2. injection H1 as <-. injection H2 as <-. simpl in Hname.
  apply (inj (String.append "table-")) in Hname.
  apply (inj (String.append id)) in Hname.
  apply (inj (String.append "-")) in Hname.
  apply append_cancel_r in Hname.
  by apply (inj pretty) in Hname.
Qed.

Lemma csv_file_name_witness : 2%nat = 2%nat.
Proof.
  refine (csv_file_name_determines_index "m"
            (tableTok [cellTok "A"] [[cellTok "1"]] [None])
            (tableTok [cellTok "B"] [] [])
            2 2 _ _ eq_refl eq_refl _).
  reflexivity.
Defined.

Section CsvReadBack.
Local Abbreviation escapeQuotes s :=
  (Js.replaceAll Js.dquote (String Js.dquote (String Js.dquote EmptyString)) s).

Lemma read_field (f acc : string) (row : list string)
    (done_ : list (list string)) (rest : string) :
  readCsv InQuotes acc row done_ (escapeQuotes f +:+ String Js.dquote rest)
  = readCsv AfterQuote (acc +:+ f) row done_ rest.
Proof.
  revert acc. induction f as [|d f IH]; intros acc.
  - rewrite append_nil_r. cbn [Js.replaceAll].
    change (EmptyString +:+ String Js.dquote rest) with (String Js.dquote rest).
    cbn [readCsv]. by rewrite Ascii.eqb_refl.
  - cbn [Js.replaceAll]. destruct (decide (d = Js.dquote)) as [->|Hd].
    + rewrite !append_cons.
      change (EmptyString +:+ escapeQuotes f) with (escapeQuotes f).
      cbn [readCsv]. rewrite !Ascii.eqb_refl.
      rewrite IH. by rewrite append_assoc.
    + rewrite append_cons. cbn [readCsv].
      apply Ascii.eqb_neq in Hd. rewrite Hd.
      rewrite IH. by rewrite append_assoc.
Qed.

Lemma join_cons2 (sep x y : string) (l : list string) :
  Js.join sep (x :: y :: l) = x +:+ sep +:+ Js.join sep (y :: l).
Proof. reflexivity. Qed.

Lemma csvQuote_then (f rest : string) :
  csvQuote f +:+ rest
  = String Js.dquote (escapeQuotes f +:+ String Js.dquote rest).
Proof.
  unfold csvQuote. by rewrite append_cons, append_assoc, append_cons.
Qed.

(** Reading one record: [K] is what the reader does once the last field
    of the record is closed. *)
Lemma read_fields (fs : list string) (f : string) (row : list string)
    (done_ : list (list string)) (rest : string)
    (K : list string -> option (list (list string))) :
  (forall fld rw, readCsv AfterQuote fld rw done_ rest = K (rw ++ [fld])) ->
  readCsv AtField EmptyString row done_
    (Js.join "," (map csvQuote (f :: fs)) +:+ rest)
  = K (row ++ f :: fs).
Proof.
  intros HK. revert f row. induction fs as [|g gs IH]; intros f row.
  - change (Js.join "," (map csvQuote [f])) with (csvQuote f).
    rewrite csvQuote_then.
    cbn [readCsv]. rewrite Ascii.eqb_refl, read_field.
    change (EmptyString +:+ f) with f. apply HK.
  - cbn [map]. rewrite join_cons2, append_assoc, csvQuote_then.
    rewrite !(append_cons ",").
    change (EmptyString +:+ Js.join "," (csvQuote g :: map csvQuote gs))
      with (Js.join "," (map csvQuote (g :: gs))).
    cbn [readCsv]. rewrite Ascii.eqb_refl, read_field.
    change (EmptyString +:+ f) with f.
    cbn [readCsv].
    change (Ascii.eqb "," Js.dquote) with false.
    change (Ascii.eqb "," ",") with true. cbn iota.
    rewrite (IH g (row ++ [f])). by rewrite <- app_assoc.
Qed.

Lemma read_records (rs : list (list string)) (r : list string)
    (done_ : list (list string)) :
  r <> [] -> Forall (fun x => x <> []) rs ->
  readCsv AtField EmptyString [] done_ (csvContentOf (r :: rs))
  = Some (done_ ++ r :: rs).
Proof.
  unfold csvContentOf.
  revert r done_. induction rs as [|r' rs IH]; intros r done_ Hr Hrs.
  - destruct r as [|f fs]; [done|].
    change (Js.join (String Js.lf EmptyString)
              (map (Js.join ",") (map (map csvQuote) [f :: fs])))
      with (Js.join "," (map csvQuote (f :: fs))).
    rewrite <- (append_nil_r (Js.join _ _)).
    by rewrite (read_fields fs f [] done_ EmptyString
                  (fun rw => Some (done_ ++ [rw]))).
  - destruct r as [|f fs]; [done|].
    inversion Hrs as [|? ? Hr' Hrs']; subst.
    change (Js.join (String Js.lf EmptyString)
              (map (Js.join ",") (map (map csvQuote) ((f :: fs) :: r' :: rs))))
      with (Js.join "," (map csvQuote (f :: fs))
            +:+ String Js.lf
                  (Js.join (String Js.lf EmptyString)
                     (map (Js.join ",") (map (map csvQuote) (r' :: rs))))).
    rewrite (read_fields fs f [] _ _
               (fun rw => readCsv AtField EmptyString [] (done_ ++ [rw])
                            (Js.join (String Js.lf EmptyString)
                               (map (Js.join ",")
                                  (map (map csvQuote) (r' :: rs)))))).
    + cbn [app]. rewrite (IH r' (done_ ++ [f :: fs]) Hr' Hrs').
      by rewrite <- app_assoc.
    + intros fld rw. cbn [readCsv].
      change (Ascii.eqb Js.lf Js.dquote) with false.
      change (Ascii.eqb Js.lf ",") with false.
      change (Ascii.eqb Js.lf Js.lf) with true. by cbn iota.
Qed.
End CsvReadBack.

(** X10.  The exported CSV reads back, field by field, as the texts of the
    header cells followed by the contents of the body cells, whatever
    commas, quotes and line feeds the cells contain; the table must have a
    header cell and no empty row. *)
Theorem csv_export_reads_back
    (id : string) (token : Token) (tokenIdx : nat) (e : ExportEffect) :
  exportTableToCSVHandler id token tokenIdx = Some e ->
  header token <> [] ->
  Forall (fun row => row <> []) (rows token) ->
  exists contents,
    mapM (mapM cellContent) (rows token) = Some contents
    /\ content (saved e)
       = bomUtf8 +:+ utf8 (csvContentOf (map text (header token) :: contents))
    /\ parseCsv (csvContentOf (map text (header token) :: contents))
       = Some (map text (header token) :: contents).
Proof.
  unfold exportTableToCSVHandler. rewrite export_rows.
  intros He Hheader Hrows.
  destruct (mapM (mapM cellContent) (rows token)) as [contents|] eqn:Hc;
    [|done].
  simpl in He. injection He as <-. exists contents. split; [done|].
  split.
  - cbn [saved content]. unfold csvContentOf. cbn [map].
    rewrite (List.map_map text csvQuote (header token)). reflexivity.
  - unfold parseCsv. apply read_records.
    + by destruct (header token).
    + apply mapM_Some in Hc.
      induction Hc as [|row r rws rs Hrow _ IH]; [done|].
      inversion Hrows; subst. constructor; [|by apply IH].
      apply mapM_Some in Hrow. destruct Hrow; [done|done].
Qed.

Lemma csv_export_reads_back_witness :
  exists contents,
    mapM (mapM cellContent)
      (rows (tableTok [cellTok "A"; cellTok "B"]
               [[cellTok "x,y"; cellTok heSaidHi]] [None; None]))
    = Some contents
    /\ bomUtf8 +:+ csvExample
       = bomUtf8 +:+ utf8 (csvContentOf
           (map text (header (tableTok [cellTok "A"; cellTok "B"]
               [[cellTok "x,y"; cellTok heSaidHi]] [None; None])) :: contents))
    /\ parseCsv (csvContentOf
         (map text (header (tableTok [cellTok "A"; cellTok "B"]
               [[cellTok "x,y"; cellTok heSaidHi]] [None; None])) :: contents))
       = Some (map text (header (tableTok [cellTok "A"; cellTok "B"]
               [[cellTok "x,y"; cellTok heSaidHi]] [None; None])) :: contents).
Proof.
  refine (csv_export_reads_back "m"
            (tableTok [cellTok "A"; cellTok "B"]
               [[cellTok "x,y"; cellTok heSaidHi]] [None; None])
            0 _ eq_refl _ _).
  - discriminate.
  - repeat constructor; discriminate.
Defined.

(** ** The template, further *)

Lemma key2_inj (id : string) (i j : nat) : key2 id i = key2 id j -> i = j.
Proof.
  unfold key2, Js.showNat. intros H.
  apply (inj (String.append id)) in H.
  apply (inj (String.append "-")) in H.
  by apply (inj pretty) in H.
Qed.

Lemma imap_index_NoDup {A : Type} (g : nat -> string) (l : list A) :
  (forall i j, g i = g j -> i = j) ->
  NoDup (imap (fun i _ => g i) l).
Proof.
  intros Hg. rewrite imap_seq_0.
  apply NoDup_fmap_2_strong; [|apply NoDup_seq].
  intros i j _ _. apply Hg.
Qed.

(** X11.  The ids one instance derives from its own id and an index are
    pairwise distinct: the ids [id-tokenIdx] over the tokens of the
    sequence, and the ids [id-tokenIdx-itemIdx] over the items of a
    list. *)
Theorem derived_ids_distinct (p : Props) (toks : list Token)
    (token : Token) (tokenIdx : nat) :
  NoDup (imap (fun i _ => key2 (id p) i) toks)
  /\ NoDup (map (fun li => selfId (liBody li)) (listItems p token tokenIdx)).
Proof.
  split.
  - apply imap_index_NoDup. apply key2_inj.
  - unfold listItems.
    change (map (fun li => selfId (liBody li)))
      with (fmap (M:=list) (fun li : Li => selfId (liBody li))).
    rewrite fmap_imap.
    apply (imap_index_NoDup
             (fun i => key2 (id p) tokenIdx +:+ "-" +:+ Js.showNat i)).
    intros i j H. unfold Js.showNat in H.
    apply (inj (String.append (key2 (id p) tokenIdx))) in H.
    apply (inj (String.append "-")) in H.
    by apply (inj pretty) in H.
Qed.

Lemma imap_imap_lengths {A B : Type} (f : nat -> nat -> A -> B)
    (rws : list (list A)) :
  map (fun row => length row) (imap (fun r row => imap (f r) row) rws)
  = map (fun row => length row) rws.
Proof.
  revert f. induction rws as [|row rws IH]; intros f; [done|].
  rewrite imap_cons. cbn [map]. rewrite length_imap. f_equal.
  apply (IH (fun n => f (S n))).
Qed.

Section TemplateMore.
Variable Alert : Type.
Variable settings : option Settings.
Variable alertComponent : Token -> option Alert.
Variable lexer : string -> list Token.
Variable unescapeHtml : string -> string.
Variable WEBUI_BASE_URL : string.

Local Abbreviation renderToken' :=
  (renderToken Alert settings alertComponent lexer unescapeHtml WEBUI_BASE_URL).
Local Abbreviation renderFrom' :=
  (renderFrom Alert settings alertComponent lexer unescapeHtml WEBUI_BASE_URL).
Local Abbreviation renderEach' :=
  (renderEach Alert settings alertComponent lexer unescapeHtml WEBUI_BASE_URL).

Lemma renderToken_shape (p : Props) (tokenIdx : nat) (token : Token) :
  (renderToken' p tokenIdx token).2
  = (if hasBranch token then [] else [LogUnknownToken token])
  /\ (length (renderToken' p tokenIdx token).1 <= 1)%nat.
Proof.
  unfold renderToken, hasBranch, dispatchKinds. cbn [existsb].
  repeat (destruct (String.eqb (type token) _);
          [ cbn [orb];
            repeat match goal with
                   | |- context [if ?b then _ else _] => destruct b
                   | |- context [match ?o with Some _ => _ | None => _ end] =>
                       destruct o
                   end; (split; [reflexivity | simpl; lia])
          | cbn [orb] ]).
  split; [reflexivity | simpl; lia].
Qed.

Lemma renderFrom_logs (p : Props) (from : nat) (ts : list Token) :
  (renderFrom' p from ts).2
  = map LogUnknownToken (List.filter (fun t => negb (hasBranch t)) ts)
  /\ (length (renderFrom' p from ts).1 <= length ts)%nat.
Proof.
  revert from. induction ts as [|t ts IH]; intros from; [done|].
  cbn [renderFrom List.filter].
  destruct (renderToken_shape p from t) as [Hl Hn].
  destruct (IH (S from)) as [IHl IHn].
  destruct (renderToken' p from t) as [n1 l1].
  destruct (renderFrom' p (S from) ts) as [n2 l2].
  cbn [fst snd] in *. subst l1. rewrite IHl. split.
  - by destruct (hasBranch t).
  - rewrite length_app. simpl. lia.
Qed.

(** X12.  What the loop logs is exactly the tokens whose kind has no branch, in
    their order, and it emits at most one node per token. *)
Theorem logs_are_unknown_tokens (p : Props) (ts : list Token) :
  (renderEach' p ts).2
  = map LogUnknownToken (List.filter (fun t => negb (hasBranch t)) ts)
  /\ (length (renderEach' p ts).1 <= length ts)%nat.
Proof. apply renderFrom_logs. Qed.

Lemma renderToken_index_free (p : Props) (i j : nat) (token : Token) :
  type token ∈ indexFreeKinds ->
  renderToken' p i token = renderToken' p j token.
Proof.
  unfold indexFreeKinds. rewrite !elem_of_cons. intros H.
  unfold renderToken.
  destruct H as [H|[H|[H|[H|[H|[H|H]]]]]];
    [rewrite H; reflexivity ..|by apply not_elem_of_nil in H].
Qed.

Lemma renderFrom_index_free (p : Props) (i j : nat) (ts : list Token) :
  Forall (fun t => type t ∈ indexFreeKinds) ts ->
  renderFrom' p i ts = renderFrom' p j ts.
Proof.
  intros Hts. revert i j. induction Hts as [|t ts Ht _ IH]; intros i j; [done|].
  cbn [renderFrom]. by rewrite (renderToken_index_free p i j t Ht), (IH (S i) (S j)).
Qed.

(** X13.  When every sibling after an unknown token has a kind whose branch does
    not use the index (hr, html, iframe, the two katex kinds, space), the
    elements rendered are the same as without the unknown token. *)
Theorem unknown_token_before_index_free_siblings
    (p : Props) (pre post : list Token) (u : Token) :
  type u ∉ dispatchKinds ->
  Forall (fun t => type t ∈ indexFreeKinds) post ->
  List.filter isElement (renderEach' p (pre ++ u :: post)).1
  = List.filter isElement (renderEach' p (pre ++ post)).1.
Proof.
  intros Hu Hpost. unfold renderEach. rewrite !renderFrom_app.
  cbn [fst renderFrom Nat.add].
  rewrite (renderToken_unknown Alert settings alertComponent lexer
             unescapeHtml WEBUI_BASE_URL p _ u Hu).
  rewrite (renderFrom_index_free p (S (length pre)) (length pre) post Hpost).
  destruct (renderFrom' p (length pre) post) as [n2 l2]. cbn [fst].
  rewrite !List.filter_app. reflexivity.
Qed.

(** X14.  A table is rendered with one header cell per header entry and one row
    of cells per row of the token; every cell, in the header and in the
    body, has the style [alignStyle] gives for its column. *)
Theorem table_cells_follow_column_style
    (p : Props) (tokenIdx : nat) (token : Token) :
  type token = "table" ->
  exists thead tbody,
    renderToken' p tokenIdx token = ([Table thead tbody token tokenIdx], [])
    /\ length thead = length (header token)
    /\ map (fun row => length row) tbody
       = map (fun row => length row) (rows token)
    /\ (forall c cell, thead !! c = Some cell ->
          cellStyle cell = alignStyle (align token) c)
    /\ (forall r row c cell, tbody !! r = Some row -> row !! c = Some cell ->
          cellStyle cell = alignStyle (align token) c).
Proof.
  intros Hty. unfold renderToken. rewrite Hty. cbn [String.eqb Ascii.eqb Bool.eqb].
  eexists _, _. split; [reflexivity|]. split; [apply length_imap|].
  split; [|split].
  - apply (imap_imap_lengths
             (fun rowIdx cellIdx cell =>
                {| cellStyle := alignStyle (align token) cellIdx;
                   cellBody := {| inlineId := key2 (id p) tokenIdx
                                    +:+ "-row-" +:+ Js.showNat rowIdx
                                    +:+ "-" +:+ Js.showNat cellIdx;
                                  inlineTokens := tokens cell |} |})).
  - intros c cell Hc. rewrite list_lookup_imap in Hc.
    destruct (header token !! c); [|done]. by injection Hc as <-.
  - intros r row c cell Hr Hc. rewrite list_lookup_imap in Hr.
    destruct (rows token !! r); [|done]. injection Hr as <-.
    rewrite list_lookup_imap in Hc.
    destruct (_ !! c); [|done]. by injection Hc as <-.
Qed.

(** X15.  A list is rendered as [ol] or [ul] after its [ordered] flag, with one
    [li] per item in order; an [ol] never starts at 0 (a missing or zero
    start gives 1); each [li] hands the item's tokens to a nested instance
    whose [top] is the list's [loose], and has a checkbox exactly when the
    item is a task. *)
Theorem list_rendering (p : Props) (tokenIdx : nat) (token : Token) :
  type token = "list" ->
  exists lis,
    (renderToken' p tokenIdx token
     = ([if ordered token
         then Ol (match start token with
                  | Some n => if (n =? 0)%Z then 1 else n
                  | None => 1
                  end) lis
         else Ul lis], []))
    /\ match start token with
       | Some n => if (n =? 0)%Z then 1 else n
       | None => 1
       end <> 0
    /\ length lis = length (items token)
    /\ (forall k li, lis !! k = Some li ->
          exists item,
            items token !! k = Some item
            /\ selfTokens (liBody li) = tokens item
            /\ selfTop (liBody li) = loose token
            /\ (is_Some (liTask li) <-> task item = true)).
Proof.
  intros Hty. exists (listItems p token tokenIdx).
  split; [|split; [|split]].
  - unfold renderToken. rewrite Hty. cbn [String.eqb Ascii.eqb Bool.eqb].
    by destruct (ordered token).
  - destruct (start token) as [n|]; [|done].
    destruct (n =? 0)%Z eqn:Hn; [done|]. by apply Z.eqb_neq in Hn.
  - apply length_imap.
  - intros k li Hk. unfold listItems in Hk. rewrite list_lookup_imap in Hk.
    destruct (items token !! k) as [item|]; [|done].
    injection Hk as <-. exists item. cbn. repeat split; try done.
    + destruct (task item); [done|]. by intros [? ?].
    + intros ->. by eexists.
Qed.
End TemplateMore.

Lemma unknown_token_index_free_witness :
  List.filter isElement
    (renderEachPlain exampleProps
       ([headingTok 1 [textTok "a"]] ++ blank "footnote"
          :: [blank "hr"; blank "space"])).1
  = List.filter isElement
      (renderEachPlain exampleProps
         ([headingTok 1 [textTok "a"]] ++ [blank "hr"; blank "space"])).1.
Proof.
  apply (unknown_token_before_index_free_siblings unit None (fun _ => None)
           (fun _ => []) (fun s => s) "http://localhost:8080" exampleProps
           [headingTok 1 [textTok "a"]] [blank "hr"; blank "space"]
           (blank "footnote")).
  - unfold dispatchKinds. simpl. intros Hin.
    repeat (apply elem_of_cons in Hin as [Hin|Hin]; [discriminate|]).
    by apply not_elem_of_nil in Hin.
  - repeat constructor.
Defined.

Lemma table_cells_witness :
  exists thead tbody,
    renderTokenPlain exampleProps 0
      (tableTok [cellTok "A"; cellTok "B"] [[cellTok "1"; cellTok "2"]]
         [Some "center"; None])
    = ([Table thead tbody
          (tableTok [cellTok "A"; cellTok "B"] [[cellTok "1"; cellTok "2"]]
             [Some "center"; None]) 0], [])
    /\ length thead = 2%nat
    /\ map (fun row => length row) tbody = [2%nat]
    /\ (forall c cell, thead !! c = Some cell ->
          cellStyle cell = alignStyle [Some "center"; None] c)
    /\ (forall r row c cell, tbody !! r = Some row -> row !! c = Some cell ->
          cellStyle cell = alignStyle [Some "center"; None] c).
Proof.
  apply (table_cells_follow_column_style unit None (fun _ => None)
           (fun _ => []) (fun s => s) "http://localhost:8080" exampleProps 0
           (tableTok [cellTok "A"; cellTok "B"] [[cellTok "1"; cellTok "2"]]
              [Some "center"; None])).
  reflexivity.
Defined.

Lemma list_rendering_witness :
  exists lis,
    renderTokenPlain exampleProps 0
      (listTok [itemTok "one" [textTok "one"]; itemTok "two" [textTok "two"]])
    = ([Ul lis], [])
    /\ (1 <> 0)
    /\ length lis = 2%nat
    /\ (forall k li, lis !! k = Some li ->
          exists item,
            [itemTok "one" [textTok "one"]; itemTok "two" [textTok "two"]] !! k
            = Some item
            /\ selfTokens (liBody li) = tokens item
            /\ selfTop (liBody li) = false
            /\ (is_Some (liTask li) <-> task item = true)).
Proof.
  apply (list_rendering unit None (fun _ => None)
           (fun _ => []) (fun s => s) "http://localhost:8080" exampleProps 0
           (listTok [itemTok "one" [textTok "one"];
                     itemTok "two" [textTok "two"]])).
  reflexivity.
Defined.

(** ** YouTube ids and the citation strip *)

Lemma takeId_spec (n : nat) (s v : string) :
  takeId n s = Some v ->
  String.length v = n
  /\ forallb isIdChar (list_ascii_of_string v) = true
  /\ exists rest, s = v +:+ rest.
Proof.
  revert s v. induction n as [|n IH]; intros s v H; simpl in H.
  - injection H as <-. by eauto.
  - destruct s as [|c s]; [done|].
    destruct (isIdChar c) eqn:Hc; [|done].
    destruct (takeId n s) as [v'|] eqn:Hv; [|done].
    simpl in H. injection H as <-.
    destruct (IH s v' Hv) as (Hlen & Hall & rest & ->).
    simpl. rewrite Hlen, Hc, Hall. repeat split; try done. by exists rest.
Qed.

Lemma takeId_app (v rest : string) :
  forallb isIdChar (list_ascii_of_string v) = true ->
  takeId (String.length v) (v +:+ rest) = Some v.
Proof.
  induction v as [|c v IH]; [done|]. intros H.
  cbn [list_ascii_of_string forallb] in H.
  apply andb_true_iff in H as [Hc Hv].
  rewrite append_cons. cbn [String.length takeId].
  by rewrite Hc, (IH Hv).
Qed.

Lemma afterPrefix_spec (pre s r : string) :
  afterPrefix pre s = Some r -> s = pre +:+ r.
Proof.
  revert s. induction pre as [|c pre IH]; intros s H; simpl in H.
  - by injection H as ->.
  - destruct s as [|d s]; [done|].
    destruct (Ascii.eqb d c) eqn:Hd; [|done].
    apply Ascii.eqb_eq in Hd as ->. rewrite append_cons. f_equal. by apply IH.
Qed.

Lemma afterPrefix_app (pre r : string) : afterPrefix pre (pre +:+ r) = Some r.
Proof.
  induction pre as [|c pre IH]; [done|].
  rewrite append_cons. simpl. by rewrite Ascii.eqb_refl.
Qed.

Lemma youTubeAt_spec (s v : string) :
  youTubeAt s = Some v ->
  String.length v = 11%nat
  /\ forallb isIdChar (list_ascii_of_string v) = true
  /\ exists rest,
       s = "youtube.com/watch?v=" +:+ v +:+ rest
       \/ s = "youtu.be/" +:+ v +:+ rest.
Proof.
  unfold youTubeAt. intros H.
  destruct (afterPrefix "youtube.com/watch?v=" s) as [r1|] eqn:H1.
  - cbn [mbind option_bind] in H.
    destruct (takeId 11 r1) as [v1|] eqn:Hv1.
    + injection H as <-. apply afterPrefix_spec in H1.
      destruct (takeId_spec _ _ _ Hv1) as (Hlen & Hall & rest & ->).
      split; [done|]. split; [done|]. exists rest. by left.
    + destruct (afterPrefix "youtu.be/" s) as [r2|] eqn:H2; [|done].
      cbn [mbind option_bind] in H. apply afterPrefix_spec in H2.
      destruct (takeId_spec _ _ _ H) as (Hlen & Hall & rest & ->).
      split; [done|]. split; [done|]. exists rest. by right.
  - cbn [mbind option_bind] in H.
    destruct (afterPrefix "youtu.be/" s) as [r2|] eqn:H2; [|done].
    cbn [mbind option_bind] in H. apply afterPrefix_spec in H2.
    destruct (takeId_spec _ _ _ H) as (Hlen & Hall & rest & ->).
    split; [done|]. split; [done|]. exists rest. by right.
Qed.

Lemma getYouTubeId_spec (url v : string) :
  getYouTubeId url = Some v ->
  String.length v = 11%nat
  /\ forallb isIdChar (list_ascii_of_string v) = true
  /\ exists before after,
       url = before +:+ "youtube.com/watch?v=" +:+ v +:+ after
       \/ url = before +:+ "youtu.be/" +:+ v +:+ after.
Proof.
  induction url as [|c url IH]; cbn [getYouTubeId]; intros H.
  - destruct (youTubeAt EmptyString) eqn:Hat; [|done]. injection H as ->.
    destruct (youTubeAt_spec _ _ Hat) as (Hlen & Hall & rest & Hs).
    split; [done|]. split; [done|]. by exists EmptyString, rest.
  - destruct (youTubeAt (String c url)) eqn:Hat.
    + injection H as ->.
      destruct (youTubeAt_spec _ _ Hat) as (Hlen & Hall & rest & Hs).
      split; [done|]. split; [done|]. by exists EmptyString, rest.
    + destruct (IH H) as (Hlen & Hall & before & after & Hs).
      split; [done|]. split; [done|]. exists (String c before), after.
      rewrite !append_cons. destruct Hs as [->| ->]; by eauto.
Qed.

(** X16.  An id found in a url is 11 characters of the id alphabet that stand in
    the url right after [youtube.com/watch?v=] or [youtu.be/]. *)
Theorem getYouTubeId_sound (url v : string) :
  getYouTubeId url = Some v ->
  String.length v = 11%nat
  /\ forallb isIdChar (list_ascii_of_string v) = true
  /\ exists before after,
       url = before +:+ "youtube.com/watch?v=" +:+ v +:+ after
       \/ url = before +:+ "youtu.be/" +:+ v +:+ after.
Proof. apply getYouTubeId_spec. Qed.

Lemma getYouTubeId_sound_witness :
  String.length "dQw4w9WgXcQ" = 11%nat
  /\ forallb isIdChar (list_ascii_of_string "dQw4w9WgXcQ") = true
  /\ exists before after,
       "https://www.youtube.com/watch?v=dQw4w9WgXcQ&t=42s"
       = before +:+ "youtube.com/watch?v=" +:+ "dQw4w9WgXcQ" +:+ after
       \/ "https://www.youtube.com/watch?v=dQw4w9WgXcQ&t=42s"
          = before +:+ "youtu.be/" +:+ "dQw4w9WgXcQ" +:+ after.
Proof.
  apply (getYouTubeId_sound
           "https://www.youtube.com/watch?v=dQw4w9WgXcQ&t=42s" "dQw4w9WgXcQ").
  reflexivity.
Defined.

(** X17.  The two usual forms of a video url yield their id, whatever follows
    the id: its first 11 characters when more id characters follow. *)
Theorem getYouTubeId_usual_urls (v rest : string) :
  String.length v = 11%nat ->
  forallb isIdChar (list_ascii_of_string v) = true ->
  getYouTubeId ("https://www.youtube.com/watch?v=" +:+ v +:+ rest) = Some v
  /\ getYouTubeId ("https://youtu.be/" +:+ v +:+ rest) = Some v.
Proof.
  intros Hlen Hall.
  pose proof (takeId_app v rest Hall) as Htake. rewrite Hlen in Htake.
  split.
  - change ("https://www.youtube.com/watch?v=" +:+ v +:+ rest)
      with ("https://www." +:+ "youtube.com/watch?v=" +:+ v +:+ rest).
    rewrite !append_cons. change (EmptyString +:+ ?x) with x.
    do 12 (cbn [getYouTubeId]; unfold youTubeAt at 1;
           cbn [afterPrefix Ascii.eqb Bool.eqb mbind option_bind]).
    unfold youTubeAt at 1.
    cbn [afterPrefix Ascii.eqb Bool.eqb mbind option_bind].
    change (EmptyString +:+ v +:+ rest) with (v +:+ rest).
    by rewrite Htake.
  - change ("https://youtu.be/" +:+ v +:+ rest)
      with ("https://" +:+ "youtu.be/" +:+ v +:+ rest).
    rewrite !append_cons. change (EmptyString +:+ ?x) with x.
    do 8 (cbn [getYouTubeId]; unfold youTubeAt at 1;
          cbn [afterPrefix Ascii.eqb Bool.eqb mbind option_bind]).
    unfold youTubeAt at 1.
    cbn [afterPrefix Ascii.eqb Bool.eqb mbind option_bind].
    change (EmptyString +:+ v +:+ rest) with (v +:+ rest).
    by rewrite Htake.
Qed.

Lemma getYouTubeId_usual_urls_witness :
  getYouTubeId ("https://www.youtube.com/watch?v=" +:+ "dQw4w9WgXcQ" +:+ "&t=1")
  = Some "dQw4w9WgXcQ"
  /\ getYouTubeId ("https://youtu.be/" +:+ "dQw4w9WgXcQ" +:+ "&t=1")
     = Some "dQw4w9WgXcQ".
Proof.
  apply getYouTubeId_usual_urls; reflexivity.
Defined.

Lemma citation_title_length (source : Source) :
  (String.length (citationTitle source) <= 48)%nat.
Proof.
  unfold citationTitle.
  destruct (48 <? String.length (title source))%nat eqn:Hlong.
  - apply Nat.ltb_lt in Hlong.
    destruct (slice0_prefix 45 (title source)) as [H45 _]; [lia|].
    rewrite length_append, H45. simpl. lia.
  - apply Nat.ltb_ge in Hlong. lia.
Qed.

(** X18.  The title shown on a card never has more than 48 characters, and a
    shown title is shown unchanged. *)
Theorem citation_title_bounded (source : Source) :
  (String.length (citationTitle source) <= 48)%nat
  /\ citationTitle {| title := citationTitle source; url := url source |}
     = citationTitle source.
Proof.
  pose proof (citation_title_length source) as Hlen.
  split; [done|].
  unfold citationTitle at 1. cbn [title].
  apply Nat.ltb_ge in Hlen. by rewrite Hlen.
Qed.

(** X19.  The strip holds one card per extracted record, in order, linking to
    the record's url and titled with its full title; the title shown has at
    most 48 characters; a card has a thumbnail only for a url with a
    YouTube id, and the thumbnail address is built from that id. *)
Theorem citation_strip_cards (toks : list Token) :
  map cardHref (citationStrip toks)
  = map url (extractAllSourcesFromTokens toks)
  /\ map cardTitleAttr (citationStrip toks)
     = map title (extractAllSourcesFromTokens toks)
  /\ Forall (fun c => (String.length (cardTitle c) <= 48)%nat)
       (citationStrip toks)
  /\ Forall (fun c =>
               forall src, cardThumb c = Some src ->
                 exists v,
                   getYouTubeId (cardHref c) = Some v
                   /\ String.length v = 11%nat
                   /\ src = "https://img.youtube.com/vi/" +:+ v
                            +:+ "/hqdefault.jpg")
       (citationStrip toks).
Proof.
  unfold citationStrip, extractedSources.
  generalize (extractAllSourcesFromTokens toks). intros srcs.
  repeat split.
  - by rewrite List.map_map.
  - by rewrite List.map_map.
  - apply Forall_forall. intros c Hc.
    apply list_elem_of_In, in_map_iff in Hc as (src & <- & _).
    apply citation_title_length.
  - apply Forall_forall. intros c Hc.
    apply list_elem_of_In, in_map_iff in Hc as (source & <- & _).
    intros src Hsrc. cbn [citationCard cardThumb cardHref] in *.
    destruct (getYouTubeId (url source)) as [v|] eqn:Hv; [|done].
    simpl in Hsrc. injection Hsrc as <-. exists v.
    destruct (getYouTubeId_spec _ _ Hv) as [Hlen _]. done.
Qed.

(** ** The trigger text *)

Lemma rev_app_append (a b : string) :
  String.rev_app a b = String.rev a +:+ b.
Proof.
  unfold String.rev. revert b. induction a as [|c a IH]; intros b; [done|].
  cbn [String.rev_app]. rewrite (IH (String c b)), (IH (String c EmptyString)).
  by rewrite append_assoc.
Qed.

Lemma rev_cons (c : ascii) (a : string) :
  String.rev (String c a) = String.rev a +:+ String c EmptyString.
Proof. unfold String.rev at 1. cbn [String.rev_app]. apply rev_app_append. Qed.

Lemma rev_append (a b : string) :
  String.rev (a +:+ b) = String.rev b +:+ String.rev a.
Proof.
  induction a as [|c a IH].
  - change (EmptyString +:+ b) with b. by rewrite append_nil_r.
  - rewrite append_cons, !rev_cons, IH. by rewrite append_assoc.
Qed.

Lemma rev_involutive (a : string) : String.rev (String.rev a) = a.
Proof.
  induction a as [|c a IH]; [done|].
  by rewrite rev_cons, rev_append, IH.
Qed.

Lemma trimStart_white (w s : string) :
  isWhite w = true -> Js.trimStart (w +:+ s) = Js.trimStart s.
Proof.
  unfold isWhite. induction w as [|c w IH]; [done|].
  cbn [list_ascii_of_string forallb]. intros H.
  apply andb_true_iff in H as [Hc Hw].
  rewrite append_cons. cbn [Js.trimStart]. rewrite Hc. by apply IH.
Qed.

Lemma trimStart_before_nonwhite (a b : string) (c : ascii) :
  Js.isWhiteSpace c = false ->
  Js.trimStart (a +:+ String c b) = Js.trimStart a +:+ String c b.
Proof.
  intros Hc. induction a as [|d a IH].
  - change (EmptyString +:+ String c b) with (String c b).
    cbn [Js.trimStart]. by rewrite Hc.
  - rewrite append_cons. cbn [Js.trimStart].
    destruct (Js.isWhiteSpace d); [done|]. by rewrite append_cons.
Qed.

Lemma trimEnd_after_nonwhite (h r : string) (c : ascii) :
  Js.isWhiteSpace c = false ->
  Js.trimEnd ((h +:+ String c EmptyString) +:+ r)
  = (h +:+ String c EmptyString) +:+ Js.trimEnd r.
Proof.
  intros Hc. unfold Js.trimEnd.
  rewrite !rev_append. cbn [String.rev String.rev_app].
  change (String c EmptyString +:+ String.rev h) with (String c (String.rev h)).
  rewrite (trimStart_before_nonwhite _ _ _ Hc).
  rewrite rev_append, rev_cons, rev_involutive. done.
Qed.

Lemma toLowerCase_append (a b : string) :
  Js.toLowerCase (a +:+ b) = Js.toLowerCase a +:+ Js.toLowerCase b.
Proof.
  induction a as [|c a IH]; [done|].
  rewrite append_cons. cbn [Js.toLowerCase]. by rewrite IH, append_cons.
Qed.

Lemma lowerChar_nonwhite (c : ascii) :
  Js.isWhiteSpace (Js.lowerChar c) = false -> Js.isWhiteSpace c = false.
Proof.
  destruct c as [[] [] [] [] [] [] [] []]; vm_compute; congruence.
Qed.

(** X20.  Letter case, white space before the word and whatever follows the
    colon do not matter: a paragraph whose only child is a strong token
    whose only child is a text token reading [sources:] in any mix of
    cases, after any white space, is a sources paragraph. *)
Theorem sources_paragraph_ignores_case_and_space
    (t s x : Token) (w h r : string) :
  type t = "paragraph" -> tokens t = Some [s] ->
  type s = "strong" -> tokens s = Some [x] ->
  type x = "text" -> text x = w +:+ h +:+ r ->
  isWhite w = true ->
  Js.toLowerCase h = "sources:" ->
  isSourcesParagraph t = true.
Proof.
  intros Ht Hts Hs Hsx Hx Htext Hw Hh.
  unfold isSourcesParagraph. rewrite Ht, Hts. cbn. rewrite Hs, Hsx. cbn.
  rewrite Hx, Htext. cbn [String.eqb Ascii.eqb Bool.eqb andb].
  unfold Js.trim. rewrite (trimStart_white _ _ Hw).
  do 8 (destruct h as [|? h]; [discriminate Hh|]).
  destruct h; [|discriminate Hh].
  cbn [Js.toLowerCase] in Hh.
  injection Hh as H1 H2 H3 H4 H5 H6 H7 H8.
  assert (Hfirst : Js.isWhiteSpace a = false)
    by (apply lowerChar_nonwhite; by rewrite H1).
  assert (Hlast : Js.isWhiteSpace a6 = false)
    by (apply lowerChar_nonwhite; by rewrite H8).
  rewrite append_cons. cbn [Js.trimStart]. rewrite Hfirst.
  rewrite <- append_cons.
  change (String a (String a0 (String a1 (String a2 (String a3
            (String a4 (String a5 (String a6 EmptyString))))))))
    with (String a (String a0 (String a1 (String a2 (String a3
            (String a4 (String a5 EmptyString))))))
          +:+ String a6 EmptyString).
  rewrite (trimEnd_after_nonwhite _ _ _ Hlast).
  rewrite toLowerCase_append.
  change (Js.toLowerCase
            (String a (String a0 (String a1 (String a2 (String a3
               (String a4 (String a5 EmptyString))))))
             +:+ String a6 EmptyString))
    with (String (Js.lowerChar a) (String (Js.lowerChar a0)
           (String (Js.lowerChar a1) (String (Js.lowerChar a2)
           (String (Js.lowerChar a3) (String (Js.lowerChar a4)
           (String (Js.lowerChar a5) (String (Js.lowerChar a6)
              EmptyString)))))))).
  rewrite H1, H2, H3, H4, H5, H6, H7, H8.
  unfold Js.startsWith. rewrite !append_cons.
  change (EmptyString +:+ Js.toLowerCase (Js.trimEnd r))
    with (Js.toLowerCase (Js.trimEnd r)).
  by destruct (Js.toLowerCase (Js.trimEnd r)).
Qed.

Lemma sources_paragraph_case_witness :
  isSourcesParagraph
    (paragraphTok [strongTok [textTok ("  " +:+ "SoUrCeS:" +:+ " see below")]])
  = true.
Proof.
  apply (sources_paragraph_ignores_case_and_space _
           (strongTok [textTok ("  " +:+ "SoUrCeS:" +:+ " see below")])
           (textTok ("  " +:+ "SoUrCeS:" +:+ " see below"))
           "  " "SoUrCeS:" " see below"); reflexivity.
Defined.

